(** * Food-order assistant: routing, workflow loop and order ledger

    A shallow embedding of the orchestration core of the food-order
    assistant:
    - [constants.py]: the state keys, status values and agent names;
    - [order_flow_agent.get_next_agent]: the routing function;
    - [custom_workflow_agent.CustomWorkflowAgent._run_async_impl]: the
      bounded step loop;
    - [menu_agent.AfterModelCallback.update_order]: the order ledger,
      with the regular expression and the string helpers it relies on;
    - the model callbacks of the four agents, which are the only code that
      writes [order_status]. *)

From Stdlib Require Import ZArith Lia Ascii String.
From stdpp Require Import base option list strings gmap.

Local Open Scope string_scope.

(** ** constants.py *)

Module constants.
Definition ORDER_TYPE := "order_type".
Definition ORDER_STATUS := "order_status".
Definition CURRENT_ORDER := "current_order".
Definition ORDER_TOTAL := "order_total".
Definition NAME_FOR_ORDER := "name_for_order".

Definition CONFIRMED := "confirmed".
Definition FINISHED := "finished".
Definition IN_PROGRESS := "in_progress".
Definition GETTING_USER_INFO := "getting_user_info".

Definition PREORDER_AGENT := "preorder_agent".
Definition MENU_AGENT := "menu_agent".
Definition CONFIRMATION_AGENT := "confirmation_agent".
Definition USER_INFO_AGENT := "user_info_agent".
Definition DONE := "done".
End constants.

(** ** Text helpers used by the ledger

    The cart mini-language is ASCII text.  The regular expression's word
    and white-space classes and [str.strip] are restricted here to the
    ASCII range: a word character is
    a letter, a digit or an underscore; white space is the set Python's
    [str.isspace] accepts below 128 (codes 9-13, 28-31 and 32).  Bytes
    above 127 belong to neither class. *)

Module Text.

Definition code (c : ascii) : N := N_of_ascii c.

Definition is_word (c : ascii) : bool :=
  let n := code c in
  ((48 <=? n) && (n <=? 57)            (* 0-9 *)
   || (65 <=? n) && (n <=? 90)         (* A-Z *)
   || (97 <=? n) && (n <=? 122)        (* a-z *)
   || (n =? 95))%N.                    (* _ *)

Definition is_space (c : ascii) : bool :=
  let n := code c in
  ((9 <=? n) && (n <=? 13) || (28 <=? n) && (n <=? 32))%N.

Definition is_char (d c : ascii) : bool := Ascii.eqb c d.

Definition rbracket : ascii := "]"%char.
Definition lbracket : ascii := "["%char.
Definition comma : ascii := ","%char.

Definition not_rbracket (c : ascii) : bool := negb (is_char rbracket c).

(** [span p s] splits [s] into its longest prefix of characters that
    satisfy [p] and the remainder: the only way a greedy [x+] or [x*]
    can match when the next pattern element excludes [x]. *)
Fixpoint span (p : ascii -> bool) (s : string) : string * string :=
  match s with
  | EmptyString => (EmptyString, EmptyString)
  | String c s' =>
      if p c then let '(a, b) := span p s' in (String c a, b)
      else (EmptyString, s)
  end.

Definition is_empty (s : string) : bool :=
  match s with EmptyString => true | String _ _ => false end.

(** One attempt of the command pattern anchored at the start of [s]:
    a group of one or more word characters, one or more white-space
    characters, an opening bracket, a group of zero or more characters
    other than the closing bracket, and the closing bracket.  The result
    is the two groups and the text after the match.  Word characters,
    white space and the two brackets are pairwise disjoint, so
    backtracking into a shorter repetition can never succeed and the
    greedy attempt is the only one. *)
Definition match_here (s : string) : option (string * string * string) :=
  let '(w, r1) := span is_word s in
  if is_empty w then None else
  let '(sp, r2) := span is_space r1 in
  if is_empty sp then None else
  match r2 with
  | String c r3 =>
      if is_char lbracket c then
        let '(body, r4) := span not_rbracket r3 in
        match r4 with
        | String _ r5 => Some (w, body, r5)   (* span stopped at the closing bracket *)
        | EmptyString => None
        end
      else None
  | EmptyString => None
  end.

(** [re.findall]: scan left to right; after a match resume at its end,
    after a failure move one character on.  [fuel] bounds the number of
    positions tried; [findall] gives one unit per character plus one. *)
Fixpoint findall_from (fuel : nat) (s : string) : list (string * string) :=
  match fuel with
  | O => []
  | S fuel' =>
      match match_here s with
      | Some (w, body, rest) => (w, body) :: findall_from fuel' rest
      | None =>
          match s with
          | EmptyString => []
          | String _ s' => findall_from fuel' s'
          end
      end
  end.

Definition findall (s : string) : list (string * string) :=
  findall_from (S (String.length s)) s.

(** [str.split(',')]: the pieces between commas, empty pieces included. *)
Fixpoint split_comma (s : string) : list string :=
  match s with
  | EmptyString => [EmptyString]
  | String c s' =>
      if is_char comma c then EmptyString :: split_comma s'
      else match split_comma s' with
           | piece :: pieces => String c piece :: pieces
           | [] => [String c EmptyString]
           end
  end.

Fixpoint lstrip (s : string) : string :=
  match s with
  | EmptyString => EmptyString
  | String c s' => if is_space c then lstrip s' else s
  end.

Fixpoint rstrip (s : string) : string :=
  match s with
  | EmptyString => EmptyString
  | String c s' =>
      let r := rstrip s' in
      if is_space c && is_empty r then EmptyString else String c r
  end.

(** [str.strip()] *)
Definition strip (s : string) : string := rstrip (lstrip s).

(** [[item.strip() for item in items_str.split(',') if item.strip()]] *)
Definition parse_items (items_str : string) : list string :=
  filter (fun item => is_empty item = false) (strip <$> split_comma items_str).

End Text.

(** ** custom_workflow_agent.py: the workflow engine

    The engine is generic in the invocation context [Ctx] (it holds the
    session state), in the events the sub-agents yield, in the routing
    callable and in the agent map.  A sub-agent run maps the context to
    the events it yields and the context it leaves behind, or to [None]
    when it raises. *)

Module CustomWorkflowAgent.

Definition _MAX_ITERATIONS : nat := 30.
Definition _DONE_AGENT : string := "done".

(** How [_run_async_impl] left the loop.  Each of the four is a plain
    [return] of the generator (or the end of its body): the method has no
    [raise] statement.  [ExitRaised] is the one abnormal exit: an
    exception of a sub-agent passes through the loop unhandled. *)
Inductive Exit :=
| ExitDone            (* the branch commented "We are done." *)
| ExitUnknownAgent    (* the branch that logs "Unknown agent name" *)
| ExitNextUserInput   (* the branch "Exits to get another user input." *)
| ExitLoopEnd         (* the while condition failed *)
| ExitRaised          (* a sub-agent raised; the loop has no handler *)
| ExitNoFuel.         (* the recursion bound of this model ran out *)

Section Engine.
Context {Ctx Event : Type}.

Definition Agent : Type := Ctx -> option (list Event * Ctx).

(** The values the local [selected_agent] can hold, and the value it is
    compared with. *)
Inductive PyVal :=
| PyNone
| PyStr (s : string)
| PyAgent (a : Agent).

(** [v == s] for a string [s]: an agent object or [None] never equals
    a string. *)
Definition eq_str (v : PyVal) (s : string) : bool :=
  match v with
  | PyStr s' => String.eqb s' s
  | PyNone | PyAgent _ => false
  end.

(** [agent_map.get(name, None)] *)
Definition agent_map_get (agent_map : gmap string Agent) (name : string) : PyVal :=
  match agent_map !! name with
  | Some a => PyAgent a
  | None => PyNone
  end.

Record Result := mkResult {
  events : list Event;      (* what the generator yielded, in order *)
  ran : list string;        (* names of the sub-agents that were run *)
  ctx_out : Ctx;            (* the context after the call *)
  step_out : nat;           (* [self.step] after the call *)
  exit : Exit;
  errors : list string      (* [logger.error] messages *)
}.

(** Put the events of the sub-agent that just ran in front of what the
    rest of the loop produces. *)
Definition after_agent (name : string) (evs : list Event) (r : Result) : Result :=
  mkResult (evs ++ events r) (name :: ran r) (ctx_out r) (step_out r)
           (exit r) (errors r).

Variable get_next_agent : Ctx -> string.
Variable agent_map : gmap string Agent.

(** The [while self.step < _MAX_ITERATIONS] loop.  [fuel] only makes the
    recursion structural; [fuel_suffices] below shows that
    [_run_async_impl] never exhausts it. *)
Fixpoint loop (fuel : nat) (step : nat) (selected_agent_name : string)
    (ctx : Ctx) : Result :=
  match fuel with
  | O => mkResult [] [] ctx step ExitNoFuel []
  | S fuel' =>
      if negb (step <? _MAX_ITERATIONS)%nat then
        mkResult [] [] ctx step ExitLoopEnd []
      else
        let step := (step + 1)%nat in
        let selected_agent := agent_map_get agent_map selected_agent_name in
        if eq_str selected_agent _DONE_AGENT then
          mkResult [] [] ctx step ExitDone []
        else
          match selected_agent with
          | PyAgent run_async =>
              match run_async ctx with
              | None => mkResult [] [selected_agent_name] ctx step ExitRaised []
              | Some (evs, ctx') =>
                  let next_agent := get_next_agent ctx' in
                  if String.eqb next_agent selected_agent_name then
                    mkResult evs [selected_agent_name] ctx' step
                             ExitNextUserInput []
                  else
                    after_agent selected_agent_name evs
                                (loop fuel' step next_agent ctx')
              end
          | PyNone | PyStr _ =>
              mkResult [] [] ctx step ExitUnknownAgent
                ["ERROR: Unknown agent name: " +:+ selected_agent_name]
          end
  end.

(** [_run_async_impl]: [step] is the value of the instance attribute
    [self.step] when the call starts. *)
Definition _run_async_impl (step : nat) (ctx : Ctx) : Result :=
  loop (S _MAX_ITERATIONS) step (get_next_agent ctx) ctx.

End Engine.

Arguments Agent : clear implicits.
Arguments Result : clear implicits.

End CustomWorkflowAgent.

(** ** Session state

    [ctx.session.state] is a dict keyed by the five strings of
    [constants]; the code reads and writes no other key, and each key holds
    values of one Python type.  A field is [None] when its key is absent
    from the dict.

    Amounts: the ledger computes with [decimal.Decimal] and stores the
    result as a Python float, reading it back through [Decimal(str(...))].
    An amount is represented here by the integer number of the catalog's
    smallest price unit it denotes (hundredths for the menu of
    [menu_agent.py]: 9.99 is 999); the store and the load are taken to
    denote the same amount. *)

Definition Decimal := Z.

Record State := mkState {
  order_type : option string;
  order_status : option string;
  current_order : option (list string);
  order_total : option Decimal;
  name_for_order : option string
}.

(** The empty dict a session starts with. *)
Definition initial_state : State := mkState None None None None None.

Definition set_order_type (v : string) (st : State) : State :=
  mkState (Some v) (order_status st) (current_order st) (order_total st)
          (name_for_order st).

Definition set_order_status (v : string) (st : State) : State :=
  mkState (order_type st) (Some v) (current_order st) (order_total st)
          (name_for_order st).

Definition set_current_order (v : list string) (st : State) : State :=
  mkState (order_type st) (order_status st) (Some v) (order_total st)
          (name_for_order st).

Definition set_order_total (v : Decimal) (st : State) : State :=
  mkState (order_type st) (order_status st) (current_order st) (Some v)
          (name_for_order st).

Definition set_name_for_order (v : string) (st : State) : State :=
  mkState (order_type st) (order_status st) (current_order st) (order_total st)
          (Some v).

(** Python truth value of [state.get(NAME_FOR_ORDER, None)]: false for a
    missing key and for the empty string. *)
Definition truthy (v : option string) : bool :=
  match v with
  | None => false
  | Some s => negb (Text.is_empty s)
  end.

(** ** order_flow_agent.py: the routing function *)

Definition get_next_agent (session_state : State) : string :=
  if String.eqb (default "UNKNOWN" (order_type session_state)) "UNKNOWN"
  then constants.PREORDER_AGENT
  else
    let order_status := default "UNKNOWN" (order_status session_state) in
    if String.eqb order_status "UNKNOWN"
       || String.eqb order_status constants.IN_PROGRESS
    then constants.MENU_AGENT
    else if String.eqb order_status constants.FINISHED
    then constants.CONFIRMATION_AGENT
    else if String.eqb order_status constants.CONFIRMED
            && negb (truthy (name_for_order session_state))
    then constants.USER_INFO_AGENT
    else if String.eqb order_status constants.GETTING_USER_INFO
    then constants.USER_INFO_AGENT
    else constants.DONE.

(** ** menu_agent.py: the order ledger *)

Module menu_agent.

(** [price_map.get(item, Decimal(0))] *)
Definition price (price_map : gmap string Decimal) (item : string) : Decimal :=
  default 0%Z (price_map !! item).

(** [list.remove(x)]: drops the first element equal to [x]; [None] stands
    for the [ValueError] raised when there is none. *)
Fixpoint list_remove (x : string) (l : list string) : option (list string) :=
  match l with
  | [] => None
  | y :: l' =>
      if String.eqb y x then Some l'
      else match list_remove x l' with
           | Some r => Some (y :: r)
           | None => None
           end
  end.

(** The locals of [update_order] while the command blocks are applied:
    the list [current_order], the running [order_total], and the items
    named in the warnings logged so far. *)
Record Acc := mkAcc {
  order : list string;
  total : Decimal;
  warned : list string
}.

(** One pass of the [for item_to_remove in items] body. *)
Definition remove_item (price_map : gmap string Decimal)
    (acc : Acc) (item_to_remove : string) : Acc :=
  match list_remove item_to_remove (order acc) with
  | Some order' =>
      mkAcc order' (total acc - price price_map item_to_remove)%Z (warned acc)
  | None =>
      mkAcc (order acc) (total acc) (warned acc ++ [item_to_remove])
  end.

(** One pass of the [for command, items_str in command_blocks] body. *)
Definition apply_block (price_map : gmap string Decimal)
    (acc : Acc) (block : string * string) : Acc :=
  let '(command, items_str) := block in
  let items := Text.parse_items items_str in
  if String.eqb command "add" then
    mkAcc (order acc ++ items)
          (foldl (fun t item => (t + price price_map item)%Z) (total acc) items)
          (warned acc)
  else if String.eqb command "remove" then
    foldl (remove_item price_map) acc items
  else acc.

(** [AfterModelCallback.update_order]: the new state and the items whose
    removal was logged as a miss.  The list is mutated in place in the
    source; nothing reads the state between the mutation and the final
    store, so the store of the final list is the only visible effect. *)
Definition update_order (price_map : gmap string Decimal)
    (order_update : string) (state : State) : State * list string :=
  if Text.is_empty order_update then (state, [])
  else
    let state1 :=
      match current_order state with
      | None => set_current_order [] state
      | Some _ => state
      end in
    let state2 :=
      match order_total state1 with
      | None => set_order_total 0%Z state1
      | Some _ => state1
      end in
    let current_order0 := default [] (current_order state2) in
    let order_total0 := default 0%Z (order_total state2) in
    let command_blocks := Text.findall order_update in
    let acc := foldl (apply_block price_map)
                     (mkAcc current_order0 order_total0 []) command_blocks in
    (set_order_total (total acc) (set_current_order (order acc) state2),
     warned acc).

(** The price map [MenuAgent.__init__] builds from [_MENU]. *)
Definition menu_price_map : gmap string Decimal :=
  list_to_map
    [("King Burger", 999%Z); ("Mini Burger", 799%Z); ("French Fries", 299%Z);
     ("Onion Rings", 399%Z); ("Large Fountain Drink", 399%Z);
     ("Medium Fountain Drink", 299%Z)].

(** What an observer reads: [state.get(CURRENT_ORDER, [])] and
    [state.get(ORDER_TOTAL, 0.0)]. *)
Definition cart (st : State) : list string := default [] (current_order st).
Definition total_of (st : State) : Decimal := default 0%Z (order_total st).

(** Sum of the catalog prices of a list of items. *)
Definition sum_prices (price_map : gmap string Decimal)
    (items : list string) : Decimal :=
  foldr (fun item t => (price price_map item + t)%Z) 0%Z items.

(** The ledger invariant of the data model. *)
Definition ledger_ok (price_map : gmap string Decimal) (st : State) : Prop :=
  total_of st = sum_prices price_map (cart st).

Record OutputSchema := mkOutput {
  agent_response : string;
  order_update : string;
  order_finished : bool
}.

(** [AfterModelCallback.__call__]: the new state and the text that
    replaces the model response. *)
Definition AfterModelCallback (price_map : gmap string Decimal)
    (output : OutputSchema) (state : State) : State * string :=
  let state :=
    if order_finished output
    then set_order_status constants.FINISHED state
    else set_order_status constants.IN_PROGRESS state in
  let state := fst (update_order price_map (order_update output) state) in
  (state, if order_finished output then EmptyString else agent_response output).

End menu_agent.

(** ** preorder_agent.py *)

Module preorder_agent.

Inductive OrderType := TO_GO | FOR_HERE | UNKNOWN.

(** [OrderType.name] *)
Definition name (t : OrderType) : string :=
  match t with
  | TO_GO => "TO_GO"
  | FOR_HERE => "FOR_HERE"
  | UNKNOWN => "UNKNOWN"
  end.

Record OutputSchema := mkOutput {
  agent_response : string;
  order_type : OrderType;
  user_started_order : bool
}.

Definition AfterModelCallback (output : OutputSchema) (state : State)
    : State * string :=
  let state :=
    match order_type output with
    | UNKNOWN => state
    | t => set_order_type (name t) state
    end in
  (state, agent_response output).

End preorder_agent.

(** ** confirmation_agent.py *)

Module confirmation_agent.

Record OutputSchema := mkOutput {
  agent_response : string;
  order_confirmed : string
}.

Definition AfterModelCallback (output : OutputSchema) (state : State)
    : State * string :=
  let state :=
    if negb (String.eqb (order_confirmed output) "unknown") then
      if String.eqb (order_confirmed output) "true"
      then set_order_status constants.CONFIRMED state
      else set_order_status constants.IN_PROGRESS state
    else state in
  (state, agent_response output).

End confirmation_agent.

(** ** user_info_agent.py *)

Module user_info_agent.

(** [state.get(NAME_FOR_ORDER, None)], named apart from the output field
    of the same name. *)
Definition state_name_for_order (state : State) : option string :=
  name_for_order state.

Record OutputSchema := mkOutput {
  agent_response : string;
  name_for_order : string;
  requires_order_update : bool
}.

(** [BeforeModelCallback.__call__].  The outer [None] is the [KeyError]
    of [state[ORDER_STATUS]] on a state without that key; the inner
    option is the returned response, [None] when the model is to be
    called. *)
Definition BeforeModelCallback (state : State)
    : option (State * option string) :=
  match order_status state with
  | None => None
  | Some status =>
      if String.eqb status constants.CONFIRMED then
        if truthy (state_name_for_order state) then
          Some (state,
                Some ("Alright, " +:+ default EmptyString (state_name_for_order state)
                      +:+ "! Give me one second as I place the order."))
        else
          Some (set_order_status constants.GETTING_USER_INFO state,
                Some "Can I have a name for this order, please?")
      else Some (state, None)
  end.

Definition AfterModelCallback (output : OutputSchema) (state : State)
    : State * string :=
  if requires_order_update output then
    (set_order_status constants.IN_PROGRESS state, EmptyString)
  else
    (set_name_for_order (name_for_order output) state, agent_response output).

End user_info_agent.

(** ** order_flow_agent.py: the agent map and the root agent

    A model call is outside the repository.  It is represented by a
    function of an environment [Env] (conversation history, pending user
    utterance, the model's own state) and the session state, returning an
    output that already satisfies the agent's output schema, and the
    environment it leaves.  When [BeforeModelCallback] returns a response
    the model is not called and [AfterModelCallback] does not run. *)

Module order_flow_agent.

Import CustomWorkflowAgent.

Section OrderFlow.
Context {Env : Type}.

Record Models := mkModels {
  preorder_model : Env -> State -> preorder_agent.OutputSchema * Env;
  menu_model : Env -> State -> menu_agent.OutputSchema * Env;
  confirmation_model : Env -> State -> confirmation_agent.OutputSchema * Env;
  user_info_model : Env -> State -> user_info_agent.OutputSchema * Env
}.

Definition Ctx : Type := State * Env.

Definition run_preorder (m : Models) : Agent Ctx string := fun ctx =>
  let '(output, env) := preorder_model m (snd ctx) (fst ctx) in
  let '(state, text) := preorder_agent.AfterModelCallback output (fst ctx) in
  Some ([text], (state, env)).

Definition run_menu (m : Models) : Agent Ctx string := fun ctx =>
  let '(output, env) := menu_model m (snd ctx) (fst ctx) in
  let '(state, text) :=
    menu_agent.AfterModelCallback menu_agent.menu_price_map output (fst ctx) in
  Some ([text], (state, env)).

Definition run_confirmation (m : Models) : Agent Ctx string := fun ctx =>
  let '(output, env) := confirmation_model m (snd ctx) (fst ctx) in
  let '(state, text) := confirmation_agent.AfterModelCallback output (fst ctx) in
  Some ([text], (state, env)).

Definition run_user_info (m : Models) : Agent Ctx string := fun ctx =>
  match user_info_agent.BeforeModelCallback (fst ctx) with
  | None => None
  | Some (state, Some text) => Some ([text], (state, snd ctx))
  | Some (state, None) =>
      let '(output, env) := user_info_model m (snd ctx) state in
      let '(state, text) := user_info_agent.AfterModelCallback output state in
      Some ([text], (state, env))
  end.

(** The [agent_map] argument of [create_agent]. *)
Definition agent_map (m : Models) : gmap string (Agent Ctx string) :=
  <["preorder_agent" := run_preorder m]>
  (<["menu_agent" := run_menu m]>
  (<["confirmation_agent" := run_confirmation m]>
  (<["user_info_agent" := run_user_info m]> ∅))).

(** The root agent's [_run_async_impl]. *)
Definition root_run (m : Models) (step : nat) (ctx : Ctx)
    : Result Ctx string :=
  _run_async_impl (fun ctx => get_next_agent (fst ctx)) (agent_map m) step ctx.

End OrderFlow.

Arguments Models : clear implicits.

(** *** The steps of the routed workflow

    [agent_step name st st']: one run of the sub-agent [name] can take
    the session state from [st] to [st'], for some output of its model. *)
Inductive agent_step : string -> State -> State -> Prop :=
| step_preorder output st :
    agent_step constants.PREORDER_AGENT st
      (fst (preorder_agent.AfterModelCallback output st))
| step_menu output st :
    agent_step constants.MENU_AGENT st
      (fst (menu_agent.AfterModelCallback menu_agent.menu_price_map output st))
| step_confirmation output st :
    agent_step constants.CONFIRMATION_AGENT st
      (fst (confirmation_agent.AfterModelCallback output st))
| step_user_info_reply st st' text :
    user_info_agent.BeforeModelCallback st = Some (st', Some text) ->
    agent_step constants.USER_INFO_AGENT st st'
| step_user_info_model output st st' :
    user_info_agent.BeforeModelCallback st = Some (st', None) ->
    agent_step constants.USER_INFO_AGENT st
      (fst (user_info_agent.AfterModelCallback output st')).

(** The engine only ever runs the agent the routing function names. *)
Definition workflow_step (st st' : State) : Prop :=
  agent_step (get_next_agent st) st st'.

(** The session states of an execution, oldest first, one per sub-agent
    run, starting from the empty state. *)
Inductive execution : list State -> Prop :=
| exec_start : execution [initial_state]
| exec_step tr st st' :
    execution (tr ++ [st]) -> workflow_step st st' ->
    execution (tr ++ [st; st']).

End order_flow_agent.

(** * Vocabulary of the properties *)

(** ** The routing contract *)

Module Routing.

(** The five results of the routing function. *)
Inductive Target :=
| TypeSelection | ItemSelection | Confirmation | IdentityCollection | TERMINAL.

Definition target_name (t : Target) : string :=
  match t with
  | TypeSelection => constants.PREORDER_AGENT
  | ItemSelection => constants.MENU_AGENT
  | Confirmation => constants.CONFIRMATION_AGENT
  | IdentityCollection => constants.USER_INFO_AGENT
  | TERMINAL => constants.DONE
  end.

(** A field reads as UNKNOWN when its key is missing or holds that word. *)
Definition reads_unknown (v : option string) : Prop :=
  v = None \/ v = Some "UNKNOWN".

#[export] Instance reads_unknown_dec v : Decision (reads_unknown v).
Proof. unfold reads_unknown. apply _. Defined.

(** The six rules of the routing contract, first match wins, for a given
    reading [unset] of "name_for_order is unset". *)
Definition route_rules (unset : option string -> Prop)
    `{!forall v, Decision (unset v)} (st : State) : Target :=
  if decide (reads_unknown (order_type st)) then TypeSelection
  else if decide (reads_unknown (order_status st)
                  \/ order_status st = Some constants.IN_PROGRESS)
  then ItemSelection
  else if decide (order_status st = Some constants.FINISHED) then Confirmation
  else if decide (order_status st = Some constants.CONFIRMED
                  /\ unset (name_for_order st))
  then IdentityCollection
  else if decide (order_status st = Some constants.GETTING_USER_INFO)
  then IdentityCollection
  else TERMINAL.

(** "Unset" as the data model has it: the optional name is absent. *)
Definition name_absent (v : option string) : Prop := v = None.

(** "Unset" as the code tests it: absent, or the empty string. *)
Definition name_absent_or_empty (v : option string) : Prop :=
  v = None \/ v = Some EmptyString.

#[export] Instance name_absent_dec v : Decision (name_absent v).
Proof. unfold name_absent. apply _. Defined.

#[export] Instance name_absent_or_empty_dec v : Decision (name_absent_or_empty v).
Proof. unfold name_absent_or_empty. apply _. Defined.

(** A state with a confirmed order whose stored name is the empty string. *)
Definition confirmed_with_empty_name : State :=
  mkState (Some "TO_GO") (Some constants.CONFIRMED)
          (Some ["King Burger"]) (Some 999%Z) (Some EmptyString).

End Routing.

(** ** Item names in the command syntax *)

Module ItemNames.
Import Text.

(** Every character of [s] satisfies [p]. *)
Fixpoint all_chars (p : ascii -> bool) (s : string) : bool :=
  match s with
  | EmptyString => true
  | String c s' => p c && all_chars p s'
  end.

(** An item name that survives the trip through the command syntax:
    not empty, free of commas and closing brackets, and without white
    space at either end. *)
Definition item_name_ok (x : string) : bool :=
  negb (is_empty x)
  && all_chars (fun c => negb (is_char comma c) && not_rbracket c) x
  && String.eqb (strip x) x.

End ItemNames.

(** ** Ledger states *)

Module LedgerSpec.
Import menu_agent.


(** The state with the ledger keys set to the given cart and total. *)
Definition with_ledger (o : list string) (t : Decimal) (st : State) : State :=
  mkState (order_type st) (order_status st) (Some o) (Some t)
          (name_for_order st).

(** The invariant on the locals of [update_order]. *)

Definition acc_ok pm (acc : Acc) : Prop :=
  total acc = sum_prices pm (order acc).




End LedgerSpec.

(** ** Engine runs *)

Module EngineSpec.
Import CustomWorkflowAgent.

(** After every sub-agent run the routing function names a different,
    registered sub-agent. *)
Definition always_hands_off {Ctx Event : Type} (router : Ctx -> string)
    (agent_map : gmap string (Agent Ctx Event)) : Prop :=
  forall name (a : Agent Ctx Event) ctx,
    agent_map !! name = Some a ->
    exists evs ctx',
      a ctx = Some (evs, ctx') /\ router ctx' <> name
      /\ is_Some (agent_map !! router ctx').

(** A routing function that never settles.

    Two sub-agents over a one-flag context; each leaves the flag so that
    the routing function names the other one. *)

Definition pingpong_router (flag : bool) : string :=
  if flag then "ping" else "pong".

Definition ping_agent : Agent bool string := fun _ => Some (["ping!"], false).
Definition pong_agent : Agent bool string := fun _ => Some (["pong!"], true).

Definition pingpong_map : gmap string (Agent bool string) :=
  <["ping" := ping_agent]> (<["pong" := pong_agent]> ∅).

(** What the iteration-cap contract asks of a call that reaches the cap:
    an abnormal end and a diagnostic. *)
Definition fatal_with_diagnostic {Ctx Event} (r : Result Ctx Event) : Prop :=
  exit r = ExitRaised /\ errors r <> [].

End EngineSpec.

(** ** Order scenarios *)

Module Scenarios.

(** A finished order: confirmed, and the customer's name is known. *)
Definition order_complete : State :=
  mkState (Some "TO_GO") (Some constants.CONFIRMED)
          (Some ["King Burger"]) (Some 999%Z) (Some "John").

(** An order taken from the greeting to the request for a name. *)
Definition s1 : State :=
  (preorder_agent.AfterModelCallback
     (preorder_agent.mkOutput EmptyString preorder_agent.TO_GO true) initial_state).1.
Definition s2 : State :=
  (menu_agent.AfterModelCallback menu_agent.menu_price_map
     (menu_agent.mkOutput "Sure, a King burger added. Anything else?"
        "add [King Burger]" false) s1).1.
Definition s3 : State :=
  (menu_agent.AfterModelCallback menu_agent.menu_price_map
     (menu_agent.mkOutput EmptyString EmptyString true) s2).1.
Definition s4 : State :=
  (confirmation_agent.AfterModelCallback
     (confirmation_agent.mkOutput EmptyString "true") s3).1.
Definition s5 : State := set_order_status constants.GETTING_USER_INFO s4.

(** The same order when the user-info model first answers with an empty
    name, the customer then asks for a change, and the unchanged order is
    finished and confirmed again. *)
Definition s6 : State :=
  (user_info_agent.AfterModelCallback
     (user_info_agent.mkOutput "Sorry, what was the name?" EmptyString false) s5).1.
Definition s7 : State :=
  (user_info_agent.AfterModelCallback
     (user_info_agent.mkOutput EmptyString EmptyString true) s6).1.
Definition s8 : State :=
  (menu_agent.AfterModelCallback menu_agent.menu_price_map
     (menu_agent.mkOutput EmptyString EmptyString true) s7).1.
Definition s9 : State :=
  (confirmation_agent.AfterModelCallback
     (confirmation_agent.mkOutput EmptyString "true") s8).1.

End Scenarios.

(** ** Command text *)

Module CommandSyntax.
Import Text ItemNames.






End CommandSyntax.

(** ** Ledger locals *)

Module LedgerLocals.
Import menu_agent.


End LedgerLocals.

(** ** Several calls on one agent object *)

Module Sessions.
Import CustomWorkflowAgent.

(** The calls of a session: before each call the caller changes the
    context (it records the user's message); the call starts with the
    [self.step] the previous call left, on the context it left. *)
Fixpoint session {Ctx Event : Type} (router : Ctx -> string)
    (agent_map : gmap string (Agent Ctx Event))
    (step : nat) (ctx : Ctx) (inputs : list (Ctx -> Ctx))
    : list (Result Ctx Event) :=
  match inputs with
  | [] => []
  | input :: inputs' =>
      let r := _run_async_impl router agent_map step (input ctx) in
      r :: session router agent_map (step_out r) (ctx_out r) inputs'
  end.

(** How many sub-agents ran in a list of calls. *)
Definition handlers_run {Ctx Event : Type} (rs : list (Result Ctx Event)) : nat :=
  foldr (fun r n => (length (ran r) + n)%nat) 0%nat rs.

(** No two neighbours of a list of names are equal. *)
Fixpoint neighbours_differ (names : list string) : Prop :=
  match names with
  | a :: (b :: _) as rest => a <> b /\ neighbours_differ rest
  | _ => True
  end.

(** One sub-agent that counts the calls it gets; the routing function
    always names it. *)
Definition counter_agent : Agent nat string := fun n => Some (["tick"], S n).

Definition counter_map : gmap string (Agent nat string) :=
  <["counter" := counter_agent]> ∅.

Definition counter_router (n : nat) : string := "counter".

End Sessions.

(** ** The status machine *)

Module StatusMachine.

(** The values the agents write to [order_type]. *)
Definition type_in_enum (v : option string) : Prop :=
  v = None \/ v = Some "TO_GO" \/ v = Some "FOR_HERE".

(** The values the agents write to [order_status]. *)
Definition status_in_enum (v : option string) : Prop :=
  v = None \/ v = Some constants.IN_PROGRESS \/ v = Some constants.FINISHED
  \/ v = Some constants.CONFIRMED \/ v = Some constants.GETTING_USER_INFO.

(** The status changes one run of a routed sub-agent can make, once the
    order type is known. *)
Definition transition (s s' : option string) : Prop :=
  ((Routing.reads_unknown s \/ s = Some constants.IN_PROGRESS)
   /\ (s' = Some constants.IN_PROGRESS \/ s' = Some constants.FINISHED))
  \/ (s = Some constants.FINISHED
      /\ (s' = Some constants.FINISHED \/ s' = Some constants.CONFIRMED
          \/ s' = Some constants.IN_PROGRESS))
  \/ (s = Some constants.CONFIRMED /\ s' = Some constants.GETTING_USER_INFO)
  \/ (s = Some constants.GETTING_USER_INFO
      /\ (s' = Some constants.GETTING_USER_INFO
          \/ s' = Some constants.IN_PROGRESS)).

(** What holds of every state of an execution. *)
Definition state_ok (st : State) : Prop :=
  type_in_enum (order_type st)
  /\ status_in_enum (order_status st)
  /\ menu_agent.ledger_ok menu_agent.menu_price_map st
  /\ (order_type st = None ->
      order_status st = None /\ current_order st = None
      /\ order_total st = None /\ name_for_order st = None).

End StatusMachine.

(** ** An order that reaches the terminal sentinel *)

Module NamedOrder.
Import Scenarios.

(** After the request for a name: the customer gives the name, then asks
    for a change, leaves the order as it is, and confirms again. *)
Definition n6 : State :=
  (user_info_agent.AfterModelCallback
     (user_info_agent.mkOutput
        "Alright, John! Give me one second as I place the order." "John" false)
     s5).1.
Definition n7 : State :=
  (user_info_agent.AfterModelCallback
     (user_info_agent.mkOutput EmptyString "John" true) n6).1.
Definition n8 : State :=
  (menu_agent.AfterModelCallback menu_agent.menu_price_map
     (menu_agent.mkOutput EmptyString EmptyString true) n7).1.
Definition n9 : State :=
  (confirmation_agent.AfterModelCallback
     (confirmation_agent.mkOutput EmptyString "true") n8).1.

End NamedOrder.

(** ** menu_agent.py: building the price map

    [MenuAgent.__init__] walks the items of the validated menu.  The
    constructor [Decimal] belongs to the standard library: it is a
    parameter here, [None] standing for the exception it raises on text it
    does not accept. *)

Module MenuCatalog.

Record FoodItem := mkFoodItem {
  name : string;
  price : string
}.

(** [str.lstrip(chars)] and [str.rstrip(chars)] for one character. *)
Fixpoint lstrip_char (d : ascii) (s : string) : string :=
  match s with
  | EmptyString => EmptyString
  | String c s' => if Text.is_char d c then lstrip_char d s' else s
  end.

Fixpoint rstrip_char (d : ascii) (s : string) : string :=
  match s with
  | EmptyString => EmptyString
  | String c s' =>
      let r := rstrip_char d s' in
      if Text.is_char d c && Text.is_empty r then EmptyString else String c r
  end.

(** [item.price.strip('$')] *)
Definition strip_dollar (s : string) : string :=
  rstrip_char "$"%char (lstrip_char "$"%char s).

(** The loop of [MenuAgent.__init__], from the price map built so far. *)
Fixpoint build_from (to_decimal : string -> option Decimal)
    (price_map : gmap string Decimal) (items : list FoodItem)
    : option (gmap string Decimal) :=
  match items with
  | [] => Some price_map
  | item :: items' =>
      if Text.is_empty (price item) then build_from to_decimal price_map items'
      else
        match to_decimal (strip_dollar (price item)) with
        | Some d => build_from to_decimal (<[name item := d]> price_map) items'
        | None => None
        end
  end.

Definition build_price_map (to_decimal : string -> option Decimal)
    (items : list FoodItem) : option (gmap string Decimal) :=
  build_from to_decimal ∅ items.

(** The price the menu gives an item name: that of the last entry with this
    name and a non-empty price. *)
Fixpoint listed_price (to_decimal : string -> option Decimal)
    (x : string) (items : list FoodItem) : option Decimal :=
  match items with
  | [] => None
  | item :: items' =>
      match listed_price to_decimal x items' with
      | Some d => Some d
      | None =>
          if String.eqb (name item) x && negb (Text.is_empty (price item))
          then to_decimal (strip_dollar (price item))
          else None
      end
  end.

(** The items of [_MENU] and a reader for prices written with two
    decimals, enough for them. *)
Definition menu_items : list FoodItem :=
  [mkFoodItem "King Burger" "$9.99"; mkFoodItem "Mini Burger" "$7.99";
   mkFoodItem "French Fries" "$2.99"; mkFoodItem "Onion Rings" "$3.99";
   mkFoodItem "Large Fountain Drink" "$3.99";
   mkFoodItem "Medium Fountain Drink" "$2.99"].

Definition digit (c : ascii) : option Z :=
  let n := Z.of_N (N_of_ascii c) in
  if ((48 <=? n) && (n <=? 57))%Z then Some (n - 48)%Z else None.

Definition two_decimals (s : string) : option Decimal :=
  match s with
  | String a (String "."%char (String b (String c EmptyString))) =>
      match digit a, digit b, digit c with
      | Some x, Some y, Some z => Some (100 * x + 10 * y + z)%Z
      | _, _, _ => None
      end
  | _ => None
  end.

End MenuCatalog.

(** * Properties *)

(** ** The routing function *)

Module RoutingFacts.
Import Routing.

Lemma eqb_default_unknown (v : option string) :
  String.eqb (default "UNKNOWN" v) "UNKNOWN" = bool_decide (reads_unknown v).
Proof.
  unfold reads_unknown.
  destruct (bool_decide_reflect (v = None \/ v = Some "UNKNOWN")) as [H|H].
  - destruct H as [->| ->]; reflexivity.
  - destruct v as [s|]; [|tauto]. cbn [default].
    apply String.eqb_neq. intros E. cbv [id] in E. subst s. tauto.
Qed.

Lemma eqb_default_status (v : option string) (s : string) :
  s <> "UNKNOWN" ->
  String.eqb (default "UNKNOWN" v) s = bool_decide (v = Some s).
Proof.
  intros Hs.
  destruct (bool_decide_reflect (v = Some s)) as [->|H].
  - cbn [default]. apply String.eqb_refl.
  - apply String.eqb_neq. destruct v as [s'|]; cbv [default from_option id]; congruence.
Qed.

Lemma truthy_absent_or_empty (v : option string) :
  negb (truthy v) = bool_decide (name_absent_or_empty v).
Proof.
  unfold name_absent_or_empty.
  destruct (bool_decide_reflect (v = None \/ v = Some EmptyString)) as [H|H].
  - destruct H as [->| ->]; reflexivity.
  - destruct v as [[|c s]|]; [tauto|reflexivity|tauto].
Qed.

(** C1 (as amended): for every session state the routing function returns
    the name of exactly one of the five targets, chosen by the six rules
    in order, where rule 4 fires when the status is CONFIRMED and
    [name_for_order] is absent or the empty string. *)
Theorem get_next_agent_follows_rules (st : State) :
  get_next_agent st = target_name (route_rules name_absent_or_empty st).
Proof.
  unfold get_next_agent, route_rules.
  rewrite !eqb_default_unknown, truthy_absent_or_empty.
  rewrite !eqb_default_status by discriminate.
  repeat case_decide; repeat case_bool_decide; simpl;
    try reflexivity; try tauto.
  all: try (exfalso; naive_solver).
Qed.

(** C1 fails as stated: with the name present but empty the code still
    routes a confirmed order to identity collection, where the rules with
    "unset" read as "absent" give TERMINAL. *)
Lemma get_next_agent_empty_name :
  get_next_agent confirmed_with_empty_name = constants.USER_INFO_AGENT
  /\ target_name (route_rules name_absent confirmed_with_empty_name)
     = constants.DONE.
Proof. split; reflexivity. Qed.

(** The routing scenarios of the specification, on the states of an order
    as it progresses. *)
Example route_scenarios :
  get_next_agent initial_state = constants.PREORDER_AGENT
  /\ get_next_agent Scenarios.s1 = constants.MENU_AGENT
  /\ get_next_agent Scenarios.s3 = constants.CONFIRMATION_AGENT
  /\ get_next_agent Scenarios.s4 = constants.USER_INFO_AGENT
  /\ get_next_agent Scenarios.s5 = constants.USER_INFO_AGENT
  /\ get_next_agent Scenarios.order_complete = constants.DONE.
Proof. repeat split; vm_compute; reflexivity. Qed.

End RoutingFacts.

(** ** The command parser *)

Module TextFacts.
Import Text.
Export ItemNames.













End TextFacts.

(** ** The order ledger *)

Module LedgerFacts.
Import Text TextFacts menu_agent.
Export LedgerSpec.

Lemma update_order_nonempty pm (s : string) (st : State) :
  is_empty s = false ->
  update_order pm s st =
    let acc := foldl (apply_block pm) (mkAcc (cart st) (total_of st) [])
                     (findall s) in
    (with_ledger (order acc) (total acc) st, warned acc).
Proof.
  intros Hs. unfold update_order. rewrite Hs.
  destruct st as [ty status [o|] [t|] nm]; reflexivity.
Qed.



(** *** [list.remove] *)


Lemma list_remove_Some_elem (x : string) (l l' : list string) :
  list_remove x l = Some l' -> x ∈ l.
Proof.
  revert l'. induction l as [|y l IH]; simpl; intros l'; [done|].
  destruct (String.eqb_spec y x) as [->|_]; [intros _; left|].
  destruct (list_remove x l) as [r|]; [|done].
  intros _. right. by eapply IH.
Qed.




(** *** Prices *)

Lemma sum_prices_app pm (l k : list string) :
  sum_prices pm (l ++ k) = (sum_prices pm l + sum_prices pm k)%Z.
Proof. induction l as [|x l IH]; simpl; [done|]. rewrite IH. lia. Qed.

Lemma foldl_add_prices pm (items : list string) (t : Decimal) :
  foldl (fun t item => (t + price pm item)%Z) t items
  = (t + sum_prices pm items)%Z.
Proof.
  revert t. induction items as [|x items IH]; intros t; simpl; [lia|].
  rewrite IH. lia.
Qed.

Lemma sum_prices_remove pm (x : string) (l l' : list string) :
  list_remove x l = Some l' ->
  sum_prices pm l = (price pm x + sum_prices pm l')%Z.
Proof.
  revert l'. induction l as [|y l IH]; simpl; intros l'; [done|].
  destruct (String.eqb_spec y x) as [->|_]; [by intros [= ->]|].
  destruct (list_remove x l) as [r|]; [|done].
  intros [= <-]. simpl. rewrite (IH r eq_refl). lia.
Qed.

Lemma remove_item_ok pm (acc : Acc) (x : string) :
  acc_ok pm acc -> acc_ok pm (remove_item pm acc x).
Proof.
  unfold acc_ok, remove_item. intros Hacc.
  destruct (list_remove x (order acc)) as [o'|] eqn:Hrm; simpl; [|done].
  rewrite Hacc, (sum_prices_remove pm x _ _ Hrm). lia.
Qed.

Lemma foldl_remove_item_ok pm (items : list string) (acc : Acc) :
  acc_ok pm acc -> acc_ok pm (foldl (remove_item pm) acc items).
Proof.
  revert acc. induction items as [|x items IH]; intros acc Hacc; simpl; [done|].
  apply IH. by apply remove_item_ok.
Qed.

Lemma apply_block_ok pm (acc : Acc) (block : string * string) :
  acc_ok pm acc -> acc_ok pm (apply_block pm acc block).
Proof.
  intros Hacc. destruct block as [command items_str]. unfold apply_block.
  destruct (String.eqb command "add").
  - unfold acc_ok in *. simpl.
    rewrite foldl_add_prices, sum_prices_app, Hacc. reflexivity.
  - destruct (String.eqb command "remove"); [|done].
    by apply foldl_remove_item_ok.
Qed.

Lemma foldl_apply_block_ok pm (blocks : list (string * string)) (acc : Acc) :
  acc_ok pm acc -> acc_ok pm (foldl (apply_block pm) acc blocks).
Proof.
  revert acc. induction blocks as [|b blocks IH]; intros acc Hacc; simpl; [done|].
  apply IH. by apply apply_block_ok.
Qed.

Lemma update_order_ok pm (s : string) (st : State) :
  ledger_ok pm st -> ledger_ok pm (update_order pm s st).1.
Proof.
  intros Hst. destruct (is_empty s) eqn:Hs.
  - unfold update_order. by rewrite Hs.
  - rewrite update_order_nonempty by done. cbn zeta. unfold ledger_ok. simpl.
    apply (foldl_apply_block_ok pm (findall s) (mkAcc (cart st) (total_of st) [])).
    exact Hst.
Qed.

End LedgerFacts.

Module OrderLedger.
Import Text TextFacts menu_agent LedgerFacts.



(** Every name on the menu of [menu_agent.py] is a well-formed item name. *)
Lemma menu_names_ok (x : string) :
  is_Some (menu_price_map !! x) -> item_name_ok x = true.
Proof.
  intros [p Hp]. apply elem_of_map_to_list in Hp.
  assert (Hall : Forall (fun kv => item_name_ok kv.1 = true)
                        (map_to_list menu_price_map)).
  { vm_compute. repeat constructor. }
  rewrite Forall_forall in Hall. exact (Hall _ Hp).
Qed.



(** The scenario of the specification: one burger added to an empty cart. *)
Example add_king_burger :
  update_order menu_price_map "add [King Burger]"
    (mkState (Some "TO_GO") (Some constants.IN_PROGRESS) (Some []) (Some 0%Z) None)
  = (mkState (Some "TO_GO") (Some constants.IN_PROGRESS)
             (Some ["King Burger"]) (Some 999%Z) None, []).
Proof. vm_compute. reflexivity. Qed.











End OrderLedger.

(** ** The workflow engine *)

Module Engine.
Import CustomWorkflowAgent.
Export EngineSpec.

Section EngineFacts.
Context {Ctx Event : Type}.
Variable router : Ctx -> string.
Variable agent_map : gmap string (Agent Ctx Event).

Abbreviation Run := (Result Ctx Event).
Abbreviation loop := (loop router agent_map).
Abbreviation run := (_run_async_impl router agent_map).

(** A lookup in the agent map never yields a string, so the comparison
    with the terminal sentinel is false whatever name was routed. *)
Lemma agent_map_get_not_done (name : string) :
  eq_str (agent_map_get agent_map name) _DONE_AGENT = false.
Proof. unfold agent_map_get. by destruct (agent_map !! name). Qed.

(** One pass of the loop body. *)
Lemma loop_S fuel step name ctx :
  loop (S fuel) step name ctx =
    if negb (step <? _MAX_ITERATIONS)%nat then
      mkResult [] [] ctx step ExitLoopEnd []
    else if eq_str (agent_map_get agent_map name) _DONE_AGENT then
      mkResult [] [] ctx (step + 1) ExitDone []
    else
      match agent_map_get agent_map name with
      | PyAgent run_async =>
          match run_async ctx with
          | None => mkResult [] [name] ctx (step + 1) ExitRaised []
          | Some (evs, ctx') =>
              if String.eqb (router ctx') name then
                mkResult evs [name] ctx' (step + 1) ExitNextUserInput []
              else after_agent name evs (loop fuel (step + 1) (router ctx') ctx')
          end
      | PyNone | PyStr _ =>
          mkResult [] [] ctx (step + 1) ExitUnknownAgent
            ["ERROR: Unknown agent name: " +:+ name]
      end.
Proof. reflexivity. Qed.

(** The same, case by case. *)
Lemma loop_end fuel step name ctx :
  _MAX_ITERATIONS <= step ->
  loop (S fuel) step name ctx = mkResult [] [] ctx step ExitLoopEnd [].
Proof.
  intros Hstep. rewrite loop_S.
  destruct (Nat.ltb_spec step _MAX_ITERATIONS) as [Hlt|_]; [lia|reflexivity].
Qed.

Lemma loop_unknown fuel step name ctx :
  step < _MAX_ITERATIONS ->
  agent_map !! name = None ->
  loop (S fuel) step name ctx
  = mkResult [] [] ctx (step + 1) ExitUnknownAgent
      ["ERROR: Unknown agent name: " +:+ name].
Proof.
  intros Hstep Hname. rewrite loop_S.
  destruct (Nat.ltb_spec step _MAX_ITERATIONS) as [_|Hge]; [|lia].
  unfold agent_map_get. rewrite Hname. reflexivity.
Qed.

Lemma loop_raised fuel step name ctx (a : Agent Ctx Event) :
  step < _MAX_ITERATIONS ->
  agent_map !! name = Some a -> a ctx = None ->
  loop (S fuel) step name ctx = mkResult [] [name] ctx (step + 1) ExitRaised [].
Proof.
  intros Hstep Hname Hrun. rewrite loop_S.
  destruct (Nat.ltb_spec step _MAX_ITERATIONS) as [_|Hge]; [|lia].
  unfold agent_map_get. rewrite Hname. cbn [eq_str negb]. rewrite Hrun. reflexivity.
Qed.

Lemma loop_same fuel step name ctx (a : Agent Ctx Event) evs ctx' :
  step < _MAX_ITERATIONS ->
  agent_map !! name = Some a -> a ctx = Some (evs, ctx') ->
  router ctx' = name ->
  loop (S fuel) step name ctx
  = mkResult evs [name] ctx' (step + 1) ExitNextUserInput [].
Proof.
  intros Hstep Hname Hrun Hnext. rewrite loop_S.
  destruct (Nat.ltb_spec step _MAX_ITERATIONS) as [_|Hge]; [|lia].
  unfold agent_map_get. rewrite Hname. cbn [eq_str negb]. rewrite Hrun, Hnext.
  by rewrite String.eqb_refl.
Qed.

Lemma loop_other fuel step name ctx (a : Agent Ctx Event) evs ctx' :
  step < _MAX_ITERATIONS ->
  agent_map !! name = Some a -> a ctx = Some (evs, ctx') ->
  router ctx' <> name ->
  loop (S fuel) step name ctx
  = after_agent name evs (loop fuel (step + 1) (router ctx') ctx').
Proof.
  intros Hstep Hname Hrun Hnext. rewrite loop_S.
  destruct (Nat.ltb_spec step _MAX_ITERATIONS) as [_|Hge]; [|lia].
  unfold agent_map_get. rewrite Hname. cbn [eq_str negb]. rewrite Hrun.
  apply String.eqb_neq in Hnext. by rewrite Hnext.
Qed.

(** The cases of one pass, as an induction principle for the loop: a
    property that holds at each way of leaving the loop, and is carried
    across a hand-off, holds of every run with enough fuel. *)
Lemma loop_ind (P : nat -> string -> Ctx -> Run -> Prop) :
  (forall step name ctx, _MAX_ITERATIONS <= step ->
     P step name ctx (mkResult [] [] ctx step ExitLoopEnd [])) ->
  (forall step name ctx, step < _MAX_ITERATIONS -> agent_map !! name = None ->
     P step name ctx (mkResult [] [] ctx (step + 1) ExitUnknownAgent
                        ["ERROR: Unknown agent name: " +:+ name])) ->
  (forall step name ctx (a : Agent Ctx Event), step < _MAX_ITERATIONS ->
     agent_map !! name = Some a -> a ctx = None ->
     P step name ctx (mkResult [] [name] ctx (step + 1) ExitRaised [])) ->
  (forall step name ctx (a : Agent Ctx Event) evs ctx', step < _MAX_ITERATIONS ->
     agent_map !! name = Some a -> a ctx = Some (evs, ctx') ->
     router ctx' = name ->
     P step name ctx (mkResult evs [name] ctx' (step + 1) ExitNextUserInput [])) ->
  (forall step name ctx (a : Agent Ctx Event) evs ctx' r, step < _MAX_ITERATIONS ->
     agent_map !! name = Some a -> a ctx = Some (evs, ctx') ->
     router ctx' <> name ->
     P (step + 1) (router ctx') ctx' r ->
     P step name ctx (after_agent name evs r)) ->
  forall fuel step name ctx,
    _MAX_ITERATIONS - step < fuel ->
    P step name ctx (loop fuel step name ctx).
Proof.
  intros Hend Hunknown Hraised Hsame Hother.
  induction fuel as [|fuel IH]; intros step name ctx Hfuel; [lia|].
  destruct (Nat.lt_ge_cases step _MAX_ITERATIONS) as [Hlt|Hge].
  - destruct (agent_map !! name) as [a|] eqn:Hname.
    + destruct (a ctx) as [[evs ctx']|] eqn:Hrun.
      * destruct (decide (router ctx' = name)) as [Heq|Hne].
        -- rewrite (loop_same _ _ _ _ _ _ _ Hlt Hname Hrun Heq). eauto.
        -- rewrite (loop_other _ _ _ _ _ _ _ Hlt Hname Hrun Hne).
           eapply Hother; eauto. apply IH. lia.
      * rewrite (loop_raised _ _ _ _ _ Hlt Hname Hrun). eauto.
    + rewrite (loop_unknown _ _ _ _ Hlt Hname). eauto.
  - rewrite (loop_end _ _ _ _ Hge). eauto.
Qed.

(** The recursion bound is never what stops a call. *)
Lemma fuel_suffices step ctx : exit (run step ctx) <> ExitNoFuel.
Proof.
  unfold _run_async_impl.
  apply (loop_ind (fun _ _ _ r => exit r <> ExitNoFuel)); simpl; intros; try done.
  all: unfold _MAX_ITERATIONS; lia.
Qed.

(** The branch for the terminal sentinel is never taken. *)
Lemma exit_never_done step ctx : exit (run step ctx) <> ExitDone.
Proof.
  unfold _run_async_impl.
  apply (loop_ind (fun _ _ _ r => exit r <> ExitDone)); simpl; intros; try done.
  all: unfold _MAX_ITERATIONS; lia.
Qed.

(** Sub-agents run in one call: at most what is left of the cap. *)
Lemma ran_bound step ctx :
  length (ran (run step ctx)) <= _MAX_ITERATIONS - step.
Proof.
  unfold _run_async_impl.
  apply (loop_ind (fun step _ _ r => length (ran r) <= _MAX_ITERATIONS - step));
    simpl; intros; try lia.
  all: unfold _MAX_ITERATIONS; lia.
Qed.

(** Only the unknown-agent branch logs an error. *)
Lemma errors_only_unknown step ctx :
  exit (run step ctx) <> ExitUnknownAgent -> errors (run step ctx) = [].
Proof.
  unfold _run_async_impl.
  apply (loop_ind (fun _ _ _ r => exit r <> ExitUnknownAgent -> errors r = []));
    simpl; intros; auto; try done.
  all: unfold _MAX_ITERATIONS; lia.
Qed.

Lemma hands_off_until_cap :
  always_hands_off router agent_map ->
  forall fuel step name ctx,
    _MAX_ITERATIONS - step < fuel ->
    is_Some (agent_map !! name) ->
    let r := loop fuel step name ctx in
    length (ran r) = _MAX_ITERATIONS - step
    /\ step_out r = Nat.max step _MAX_ITERATIONS
    /\ exit r = ExitLoopEnd /\ errors r = [].
Proof.
  intros Hoff. induction fuel as [|fuel IH]; intros step name ctx Hfuel Hreg; [lia|].
  destruct (Nat.lt_ge_cases step _MAX_ITERATIONS) as [Hlt|Hge].
  - destruct Hreg as [a Hname].
    destruct (Hoff name a ctx Hname) as (evs & ctx' & Hrun & Hne & Hreg').
    cbv zeta. rewrite (loop_other _ _ _ _ _ _ _ Hlt Hname Hrun Hne).
    destruct (IH (step + 1) (router ctx') ctx' ltac:(lia) Hreg')
      as (Hran & Hstep & Hexit & Herr).
    simpl. rewrite Hran, Hstep, Hexit, Herr. repeat split; lia.
  - cbv zeta. rewrite (loop_end _ _ _ _ Hge). simpl. repeat split; lia.
Qed.

End EngineFacts.

Lemma pingpong_registered (flag : bool) :
  is_Some (pingpong_map !! pingpong_router flag).
Proof. destruct flag; vm_compute; eauto. Qed.

Lemma pingpong_hands_off : always_hands_off pingpong_router pingpong_map.
Proof.
  intros name a ctx Hname. unfold pingpong_map in Hname.
  apply lookup_insert_Some in Hname as [[<- <-]|[Hne Hname]].
  - exists ["ping!"], false. split; [done|]. split; [done|].
    apply (pingpong_registered false).
  - apply lookup_insert_Some in Hname as [[<- <-]|[Hne' Hname]].
    + exists ["pong!"], true. split; [done|]. split; [done|].
      apply (pingpong_registered true).
    + by rewrite lookup_empty in Hname.
Qed.

(** C2 fails as stated: with a routing function that always names a
    different sub-agent, the call runs thirty sub-agents and then simply
    returns; nothing is raised and nothing is logged as an error. *)
Lemma cap_is_reached_silently :
  always_hands_off pingpong_router pingpong_map
  /\ length (ran (_run_async_impl pingpong_router pingpong_map 0 true)) = 30
  /\ exit (_run_async_impl pingpong_router pingpong_map 0 true) = ExitLoopEnd
  /\ errors (_run_async_impl pingpong_router pingpong_map 0 true) = []
  /\ ~ fatal_with_diagnostic (_run_async_impl pingpong_router pingpong_map 0 true).
Proof.
  split; [exact pingpong_hands_off|].
  assert (Hexit : exit (_run_async_impl pingpong_router pingpong_map 0 true)
                  = ExitLoopEnd) by (vm_compute; reflexivity).
  repeat split; try (vm_compute; reflexivity).
  intros [Hraised _]. rewrite Hexit in Hraised. discriminate.
Qed.

(** The step counter is an attribute of the agent object and nothing
    resets it: a call that starts with the counter at the cap runs no
    sub-agent at all. *)
Lemma step_counter_persists :
  step_out (_run_async_impl pingpong_router pingpong_map 0 true) = 30
  /\ ran (_run_async_impl pingpong_router pingpong_map 30 true) = [].
Proof. split; vm_compute; reflexivity. Qed.

(** C2 (as amended): a call runs at most thirty sub-agents; when the
    counter reaches the cap the loop ends and the call returns normally,
    with no error logged.  With the counter at zero and a routing function
    that names a different registered sub-agent after every run, the call
    runs exactly thirty sub-agents and then returns in that way. *)
Theorem iteration_cap {Ctx Event : Type} (router : Ctx -> string)
    (agent_map : gmap string (Agent Ctx Event)) :
  (forall step ctx,
     length (ran (_run_async_impl router agent_map step ctx)) <= _MAX_ITERATIONS
     /\ exit (_run_async_impl router agent_map step ctx) <> ExitNoFuel
     /\ (exit (_run_async_impl router agent_map step ctx) = ExitLoopEnd ->
         errors (_run_async_impl router agent_map step ctx) = []))
  /\ (always_hands_off router agent_map ->
      forall ctx,
        is_Some (agent_map !! router ctx) ->
        length (ran (_run_async_impl router agent_map 0 ctx)) = _MAX_ITERATIONS
        /\ step_out (_run_async_impl router agent_map 0 ctx) = _MAX_ITERATIONS
        /\ exit (_run_async_impl router agent_map 0 ctx) = ExitLoopEnd
        /\ errors (_run_async_impl router agent_map 0 ctx) = []).
Proof.
  split.
  - intros step ctx. split; [|split].
    + pose proof (ran_bound router agent_map step ctx). lia.
    + apply fuel_suffices.
    + intros Hexit. apply errors_only_unknown. rewrite Hexit. discriminate.
  - intros Hoff ctx Hreg.
    apply (hands_off_until_cap router agent_map Hoff
             (S _MAX_ITERATIONS) 0 (router ctx) ctx); [|exact Hreg].
    unfold _MAX_ITERATIONS. lia.
Qed.

Lemma iteration_cap_witness :
  length (ran (_run_async_impl pingpong_router pingpong_map 0 false)) = 30
  /\ step_out (_run_async_impl pingpong_router pingpong_map 0 false) = 30
  /\ exit (_run_async_impl pingpong_router pingpong_map 0 false) = ExitLoopEnd
  /\ errors (_run_async_impl pingpong_router pingpong_map 0 false) = [].
Proof.
  exact (proj2 (iteration_cap pingpong_router pingpong_map)
           pingpong_hands_off false (pingpong_registered false)).
Defined.




End Engine.

(** ** The routed order workflow *)

Module Workflow.
Import CustomWorkflowAgent order_flow_agent.
Export Scenarios.
Local Open Scope list_scope.

Lemma done_not_registered {Env : Type} (m : Models Env) :
  agent_map m !! constants.DONE = None.
Proof.
  unfold agent_map. rewrite !lookup_insert_ne by discriminate.
  apply lookup_empty.
Qed.

(** C3: evaluated on a finished order.  The routing function returns the
    terminal sentinel, and the engine leaves through the unknown-agent
    branch, logging an error that names the sentinel: the object looked up
    in the agent map is compared with the sentinel, and the lookup of the
    sentinel finds nothing. *)
Theorem terminal_sentinel_takes_error_path {Env : Type} (m : Models Env)
    (env : Env) :
  get_next_agent order_complete = constants.DONE
  /\ root_run m 0 (order_complete, env)
     = mkResult [] [] (order_complete, env) 1 ExitUnknownAgent
         ["ERROR: Unknown agent name: done"].
Proof.
  split; [reflexivity|].
  unfold root_run, _run_async_impl.
  apply (Engine.loop_unknown _ (agent_map m) _MAX_ITERATIONS 0 constants.DONE).
  - unfold _MAX_ITERATIONS. lia.
  - apply done_not_registered.
Qed.

(** *** Which steps can write which status *)

Lemma update_order_status pm (s : string) (st : State) :
  order_status (menu_agent.update_order pm s st).1 = order_status st.
Proof.
  unfold menu_agent.update_order. destruct (Text.is_empty s); [done|].
  destruct st as [ty status [o|] [t|] nm]; reflexivity.
Qed.

Lemma default_status_Some (v : option string) (s : string) :
  String.eqb (default "UNKNOWN" v) s = true -> s <> "UNKNOWN" -> v = Some s.
Proof.
  intros Heq Hs. apply String.eqb_eq in Heq.
  destruct v as [s'|]; cbv [default from_option id] in Heq; congruence.
Qed.

Ltac split_route H :=
  unfold get_next_agent in H;
  repeat match type of H with
         | context [if ?b then _ else _] => destruct b eqn:?
         end;
  try (vm_compute in H; discriminate H).

Lemma route_confirmation (st : State) :
  get_next_agent st = constants.CONFIRMATION_AGENT ->
  order_status st = Some constants.FINISHED.
Proof.
  intros H. split_route H.
  by apply default_status_Some.
Qed.

Lemma route_user_info (st : State) :
  get_next_agent st = constants.USER_INFO_AGENT ->
  order_status st = Some constants.CONFIRMED
  \/ order_status st = Some constants.GETTING_USER_INFO.
Proof.
  intros H. split_route H.
  - left. apply default_status_Some; [|done].
    by match goal with E : (_ && _) = true |- _ => apply andb_true_iff in E as [E _] end.
  - right. by apply default_status_Some.
Qed.

(** A step that leaves the status CONFIRMED started from CONFIRMED or from
    FINISHED. *)
Lemma step_to_confirmed (st st' : State) :
  workflow_step st st' ->
  order_status st' = Some constants.CONFIRMED ->
  order_status st = Some constants.CONFIRMED
  \/ order_status st = Some constants.FINISHED.
Proof.
  unfold workflow_step. intros Hstep Hst'.
  remember (get_next_agent st) as name eqn:Hname. symmetry in Hname.
  destruct Hstep as [out st|out st|out st|st st' text Hb|out st st' Hb].
  - left. rewrite <- Hst'. unfold preorder_agent.AfterModelCallback. simpl.
    by destruct (preorder_agent.order_type out).
  - exfalso. revert Hst'. unfold menu_agent.AfterModelCallback. cbn [fst].
    rewrite update_order_status.
    by destruct (menu_agent.order_finished out).
  - right. by apply route_confirmation.
  - left. revert Hb Hst'. unfold user_info_agent.BeforeModelCallback.
    destruct (order_status st) as [status|] eqn:Hstatus; [|done].
    destruct (String.eqb_spec status constants.CONFIRMED) as [->|_]; [done|].
    intros [=].
  - left. revert Hb Hst'. unfold user_info_agent.BeforeModelCallback.
    destruct (order_status st) as [status|] eqn:Hstatus; [|done].
    destruct (String.eqb_spec status constants.CONFIRMED) as [->|Hne]; [done|].
    intros [= <-]. unfold user_info_agent.AfterModelCallback.
    destruct (user_info_agent.requires_order_update out); simpl; intros H.
    + vm_compute in H. discriminate H.
    + congruence.
Qed.

(** A step that leaves the status GETTING_USER_INFO started from
    GETTING_USER_INFO or from CONFIRMED. *)
Lemma step_to_getting_user_info (st st' : State) :
  workflow_step st st' ->
  order_status st' = Some constants.GETTING_USER_INFO ->
  order_status st = Some constants.GETTING_USER_INFO
  \/ order_status st = Some constants.CONFIRMED.
Proof.
  unfold workflow_step. intros Hstep Hst'.
  remember (get_next_agent st) as name eqn:Hname. symmetry in Hname.
  destruct Hstep as [out st|out st|out st|st st' text Hb|out st st' Hb].
  - left. rewrite <- Hst'. unfold preorder_agent.AfterModelCallback. simpl.
    by destruct (preorder_agent.order_type out).
  - exfalso. revert Hst'. unfold menu_agent.AfterModelCallback. cbn [fst].
    rewrite update_order_status.
    by destruct (menu_agent.order_finished out).
  - exfalso. revert Hst'. unfold confirmation_agent.AfterModelCallback. simpl.
    destruct (String.eqb (confirmation_agent.order_confirmed out) "unknown"); simpl.
    + apply route_confirmation in Hname. rewrite Hname. discriminate.
    + by destruct (String.eqb (confirmation_agent.order_confirmed out) "true").
  - destruct (route_user_info st Hname) as [H|H]; [by right|by left].
  - destruct (route_user_info st Hname) as [H|H]; [by right|by left].
Qed.

(** *** The engine only takes workflow steps *)

Lemma agent_run_step {Env : Type} (m : Models Env) (name : string)
    (a : Agent (@Ctx Env) string) (ctx ctx' : @Ctx Env) (evs : list string) :
  agent_map m !! name = Some a ->
  a ctx = Some (evs, ctx') ->
  agent_step name ctx.1 ctx'.1.
Proof.
  unfold agent_map. intros Hname Hrun.
  apply lookup_insert_Some in Hname as [[<- <-]|[_ Hname]].
  { unfold run_preorder in Hrun.
    destruct (preorder_model m ctx.2 ctx.1) as [out env].
    destruct (preorder_agent.AfterModelCallback out ctx.1) as [st text] eqn:Hcb.
    simplify_eq/=. replace st with (preorder_agent.AfterModelCallback out ctx.1).1
      by (by rewrite Hcb). apply step_preorder. }
  apply lookup_insert_Some in Hname as [[<- <-]|[_ Hname]].
  { unfold run_menu in Hrun.
    destruct (menu_model m ctx.2 ctx.1) as [out env].
    destruct (menu_agent.AfterModelCallback menu_agent.menu_price_map out ctx.1)
      as [st text] eqn:Hcb.
    simplify_eq/=.
    replace st with
      (menu_agent.AfterModelCallback menu_agent.menu_price_map out ctx.1).1
      by (by rewrite Hcb). apply step_menu. }
  apply lookup_insert_Some in Hname as [[<- <-]|[_ Hname]].
  { unfold run_confirmation in Hrun.
    destruct (confirmation_model m ctx.2 ctx.1) as [out env].
    destruct (confirmation_agent.AfterModelCallback out ctx.1) as [st text] eqn:Hcb.
    simplify_eq/=. replace st with (confirmation_agent.AfterModelCallback out ctx.1).1
      by (by rewrite Hcb). apply step_confirmation. }
  apply lookup_insert_Some in Hname as [[<- <-]|[_ Hname]].
  { unfold run_user_info in Hrun.
    destruct (user_info_agent.BeforeModelCallback ctx.1)
      as [[st [text|]]|] eqn:Hbefore; [| |done].
    - simplify_eq/=. by eapply step_user_info_reply.
    - destruct (user_info_model m ctx.2 st) as [out env].
      destruct (user_info_agent.AfterModelCallback out st) as [st2 text] eqn:Hcb.
      simplify_eq/=. replace st2 with (user_info_agent.AfterModelCallback out st).1
        by (by rewrite Hcb). by eapply step_user_info_model. }
  by rewrite lookup_empty in Hname.
Qed.

(** Whatever the models answer, the session state after a call of the
    root agent is reached from the one before by workflow steps. *)
Lemma root_run_steps {Env : Type} (m : Models Env) (step : nat) (ctx : @Ctx Env) :
  rtc workflow_step ctx.1 (ctx_out (root_run m step ctx)).1.
Proof.
  unfold root_run, _run_async_impl.
  refine (Engine.loop_ind (fun ctx : @Ctx Env => get_next_agent ctx.1) (agent_map m)
            (fun _ name ctx r =>
               name = get_next_agent ctx.1 ->
               rtc workflow_step ctx.1 (ctx_out r).1)
            _ _ _ _ _ (S _MAX_ITERATIONS) step _ ctx _ eq_refl);
    simpl; intros; try reflexivity.
  - apply rtc_once. unfold workflow_step.
    match goal with E : _ = get_next_agent _ |- _ => rewrite <- E end.
    by eapply agent_run_step.
  - eapply rtc_l.
    + unfold workflow_step.
      match goal with E : _ = get_next_agent _ |- _ => rewrite <- E end.
      by eapply agent_run_step.
    + auto.
  - unfold _MAX_ITERATIONS. lia.
Qed.

(** *** Histories *)

(** C9: in every execution of the routed workflow from the empty state, a
    state whose status is GETTING_USER_INFO comes after a state whose
    status is CONFIRMED, and a state whose status is CONFIRMED comes after
    a state whose status is FINISHED. *)
Theorem status_history (tr : list State) :
  execution tr ->
  forall (pre : list State) (st : State) (post : list State),
    tr = pre ++ st :: post ->
    (order_status st = Some constants.GETTING_USER_INFO ->
     exists st0, st0 ∈ pre /\ order_status st0 = Some constants.CONFIRMED)
    /\ (order_status st = Some constants.CONFIRMED ->
        exists st0, st0 ∈ pre /\ order_status st0 = Some constants.FINISHED).
Proof.
  induction 1 as [|tr s s' Hexec IH Hstep]; intros pre st post Heq.
  - destruct pre as [|s0 pre].
    + simplify_eq/=. split; discriminate.
    + simplify_eq/=. by destruct pre.
  - destruct post as [|x post _] using rev_ind.
    + change (tr ++ [s; s']) with (tr ++ [s] ++ [s']) in Heq.
      rewrite app_assoc in Heq. apply app_inj_tail in Heq as [<- <-].
      specialize (IH tr s [] eq_refl) as [IHg IHc]. split; intros Hst.
      * destruct (step_to_getting_user_info s s' Hstep Hst) as [Hg|Hc].
        -- destruct (IHg Hg) as (st0 & Hin & H0). exists st0. split; [|done].
           apply elem_of_app. by left.
        -- exists s. split; [|done]. apply elem_of_app. right. by left.
      * destruct (step_to_confirmed s s' Hstep Hst) as [Hc|Hf].
        -- destruct (IHc Hc) as (st0 & Hin & H0). exists st0. split; [|done].
           apply elem_of_app. by left.
        -- exists s. split; [|done]. apply elem_of_app. right. by left.
    + change (tr ++ [s; s']) with (tr ++ [s] ++ [s']) in Heq.
      rewrite app_assoc in Heq.
      change (pre ++ st :: post ++ [x]) with (pre ++ (st :: post) ++ [x]) in Heq.
      rewrite (app_assoc pre) in Heq. apply app_inj_tail in Heq as [Heq _].
      exact (IH pre st post Heq).
Qed.

Lemma order_until_name_request : execution [initial_state; s1; s2; s3; s4; s5].
Proof.
  apply (exec_step [initial_state; s1; s2; s3] s4 s5).
  - apply (exec_step [initial_state; s1; s2] s3 s4).
    + apply (exec_step [initial_state; s1] s2 s3).
      * apply (exec_step [initial_state] s1 s2).
        -- apply (exec_step [] initial_state s1); [apply exec_start|].
           apply step_preorder.
        -- apply step_menu.
      * apply step_menu.
    + apply step_confirmation.
  - apply (step_user_info_reply s4 s5 "Can I have a name for this order, please?").
    reflexivity.
Qed.

(** The state with a confirmed order and an empty name is reached by an
    execution of the workflow. *)
Lemma confirmed_with_empty_name_reachable :
  execution [initial_state; s1; s2; s3; s4; s5; s6; s7; s8; s9]
  /\ s9 = Routing.confirmed_with_empty_name.
Proof.
  split; [|vm_compute; reflexivity].
  apply (exec_step [initial_state; s1; s2; s3; s4; s5; s6; s7] s8 s9).
  - apply (exec_step [initial_state; s1; s2; s3; s4; s5; s6] s7 s8).
    + apply (exec_step [initial_state; s1; s2; s3; s4; s5] s6 s7).
      * apply (exec_step [initial_state; s1; s2; s3; s4] s5 s6).
        -- exact order_until_name_request.
        -- apply (step_user_info_model _ s5 s5). reflexivity.
      * apply (step_user_info_model _ s6 s6). reflexivity.
    + apply step_menu.
  - apply step_confirmation.
Qed.

Lemma status_history_witness :
  exists st0, st0 ∈ [initial_state; s1; s2; s3; s4]
              /\ order_status st0 = Some constants.CONFIRMED.
Proof.
  apply (proj1 (status_history [initial_state; s1; s2; s3; s4; s5]
                  order_until_name_request
                  [initial_state; s1; s2; s3; s4] s5 [] eq_refl)).
  reflexivity.
Defined.

End Workflow.

(** ** More on the command parser *)

Module CommandFacts.
Import Text TextFacts CommandSyntax.
Local Open Scope list_scope.


Lemma append_cons (c : ascii) (a b : string) :
  String c a +:+ b = String c (a +:+ b).
Proof. reflexivity. Qed.











(** *** Item lists *)

Lemma split_comma_nonempty (s : string) : split_comma s <> [].
Proof.
  destruct s as [|c s]; simpl; [done|].
  destruct (is_char comma c); [done|]. by destruct (split_comma s).
Qed.

Lemma split_comma_app (a b : string) :
  split_comma (a +:+ String comma b) = split_comma a ++ split_comma b.
Proof.
  induction a as [|c a IH]; [reflexivity|].
  rewrite append_cons. cbn [split_comma]. rewrite IH.
  destruct (is_char comma c); [reflexivity|].
  pose proof (split_comma_nonempty a).
  destruct (split_comma a) as [|piece pieces]; [done|reflexivity].
Qed.

(** X3: the items of two lists joined by a comma are the items of the
    first followed by the items of the second. *)
Theorem parse_items_comma (a b : string) :
  parse_items (a +:+ String comma b) = parse_items a ++ parse_items b.
Proof.
  unfold parse_items. by rewrite split_comma_app, fmap_app, filter_app.
Qed.








End CommandFacts.

(** ** More on the order ledger *)

Module LedgerMore.
Import Text TextFacts CommandSyntax CommandFacts menu_agent LedgerFacts.
Import LedgerLocals.
Local Open Scope list_scope.







(** *** Warnings only accumulate *)








(** *** What an update cannot do *)






(** X9: whatever the command string, [update_order] leaves [order_type],
    [order_status] and [name_for_order] as they were, so the routing
    function gives the same answer before and after. *)
Theorem update_order_frame pm (s : string) (st : State) :
  order_type (update_order pm s st).1 = order_type st
  /\ order_status (update_order pm s st).1 = order_status st
  /\ name_for_order (update_order pm s st).1 = name_for_order st
  /\ get_next_agent (update_order pm s st).1 = get_next_agent st.
Proof.
  destruct (is_empty s) eqn:Hs.
  - unfold update_order. rewrite Hs. done.
  - rewrite update_order_nonempty by done. cbn zeta. done.
Qed.





End LedgerMore.

(** ** More on the workflow engine *)

Module EngineMore.
Import CustomWorkflowAgent Sessions.
Local Open Scope list_scope.
Local Open Scope nat_scope.

Section Runs.
Context {Ctx Event : Type}.
Variable router : Ctx -> string.
Variable agent_map : gmap string (Agent Ctx Event).

Abbreviation run := (_run_async_impl router agent_map).

Lemma enough_fuel (step : nat) : _MAX_ITERATIONS - step < S _MAX_ITERATIONS.
Proof. unfold _MAX_ITERATIONS. lia. Qed.

(** X11: when a call returns to wait for the next user input, the routing
    function applied to the context it leaves names the sub-agent that ran
    last: the next call starts with that same sub-agent. *)
Theorem turn_boundary_is_stable (step : nat) (ctx : Ctx) :
  exit (run step ctx) = ExitNextUserInput ->
  exists names, ran (run step ctx) = names ++ [router (ctx_out (run step ctx))].
Proof.
  unfold _run_async_impl.
  apply (Engine.loop_ind router agent_map
           (fun _ _ _ r => exit r = ExitNextUserInput ->
                           exists names, ran r = names ++ [router (ctx_out r)]));
    simpl; try done; [| |apply enough_fuel].
  - intros _ name _ a evs ctx' _ _ _ Hnext _. exists []. by rewrite Hnext.
  - intros _ name _ a evs ctx' r _ _ _ _ IH Hexit.
    destruct (IH Hexit) as [names Hnames]. exists (name :: names).
    by rewrite Hnames.
Qed.

(** X12: the sub-agents run in one call are all registered, the first is
    the one the routing function names for the incoming context, and no
    sub-agent runs twice in a row. *)
Theorem hand_offs_change_agent (step : nat) (ctx : Ctx) :
  Forall (fun name => is_Some (agent_map !! name)) (ran (run step ctx))
  /\ neighbours_differ (ran (run step ctx))
  /\ (ran (run step ctx) = [] \/ head (ran (run step ctx)) = Some (router ctx)).
Proof.
  unfold _run_async_impl.
  apply (Engine.loop_ind router agent_map
           (fun _ name _ r =>
              Forall (fun name => is_Some (agent_map !! name)) (ran r)
              /\ neighbours_differ (ran r)
              /\ (ran r = [] \/ head (ran r) = Some name)));
    simpl; [auto|auto| | | |apply enough_fuel].
  - intros _ name _ a _ Hname _. repeat split; eauto.
  - intros _ name _ a _ _ _ Hname _ _. repeat split; eauto.
  - intros _ name _ a evs ctx' r _ Hname _ Hne (Hreg & Hdiff & Hhead).
    split; [constructor; eauto|]. split; [|by right].
    destruct (ran r) as [|b rest] eqn:Hran; [done|].
    destruct Hhead as [?|[= ->]]; [done|]. split; [congruence|done].
Qed.

Lemma step_counts (step : nat) (ctx : Ctx) :
  step_out (run step ctx)
  = step + length (ran (run step ctx))
    + match exit (run step ctx) with ExitUnknownAgent => 1 | _ => 0 end
  /\ step_out (run step ctx) <= Nat.max step _MAX_ITERATIONS.
Proof.
  unfold _run_async_impl.
  apply (Engine.loop_ind router agent_map
           (fun step _ _ r =>
              step_out r
              = step + length (ran r)
                + match exit r with ExitUnknownAgent => 1 | _ => 0 end
              /\ step_out r <= Nat.max step _MAX_ITERATIONS));
    simpl; intros; lia.
Qed.

(** X13: [self.step] grows by one for each sub-agent run, and by one more
    when the call ends on an unknown agent name; it never passes the cap
    unless it started beyond it. *)
Theorem step_accounting (step : nat) (ctx : Ctx) :
  step_out (run step ctx)
  = step + length (ran (run step ctx))
    + match exit (run step ctx) with ExitUnknownAgent => 1 | _ => 0 end
  /\ step_out (run step ctx) <= Nat.max step _MAX_ITERATIONS.
Proof.
  unfold _run_async_impl.
  apply (Engine.loop_ind router agent_map
           (fun step _ _ r =>
              step_out r
              = step + length (ran r)
                + match exit r with ExitUnknownAgent => 1 | _ => 0 end
              /\ step_out r <= Nat.max step _MAX_ITERATIONS)).
  - simpl. intros. lia.
  - simpl. intros. lia.
  - simpl. intros. lia.
  - simpl. intros. lia.
  - simpl. intros step0 name ctx0 a evs ctx' r Hlt _ _ _ [Hout Hmax]. lia.
  - apply enough_fuel.
Qed.

Lemma run_at_cap (step : nat) (ctx : Ctx) :
  _MAX_ITERATIONS <= step ->
  run step ctx = mkResult [] [] ctx step ExitLoopEnd [].
Proof. intros Hstep. by apply Engine.loop_end. Qed.

(** X14: over any sequence of calls on the same agent object, whatever the
    caller does to the context in between, at most thirty sub-agents run
    in total: the counter is carried from call to call and never reset. *)
Theorem lifetime_cap (step : nat) (ctx : Ctx) (inputs : list (Ctx -> Ctx)) :
  handlers_run (session router agent_map step ctx inputs)
  <= _MAX_ITERATIONS - step.
Proof.
  enough (handlers_run (session router agent_map step ctx inputs) + step
          <= Nat.max step _MAX_ITERATIONS) by lia.
  revert step ctx. induction inputs as [|input inputs IH]; intros step ctx;
    simpl; [lia|].
  destruct (step_counts step (input ctx)) as [Hstep Hmax].
  specialize (IH (step_out (run step (input ctx)))
                 (ctx_out (run step (input ctx)))).
  destruct (exit (run step (input ctx))); lia.
Qed.

(** X15: once the counter has reached the cap, every later call returns at
    once: it runs no sub-agent, yields nothing, logs no error and leaves
    the context as the caller passed it. *)
Theorem exhausted_agent_is_silent (step : nat) (ctx : Ctx)
    (inputs : list (Ctx -> Ctx)) :
  _MAX_ITERATIONS <= step ->
  Forall (fun r => ran r = [] /\ events r = [] /\ errors r = []
                   /\ exit r = ExitLoopEnd /\ step_out r = step)
         (session router agent_map step ctx inputs).
Proof.
  intros Hstep. revert ctx.
  induction inputs as [|input inputs IH]; intros ctx; simpl; [constructor|].
  rewrite (run_at_cap step (input ctx) Hstep). by constructor.
Qed.

End Runs.

Lemma turn_boundary_is_stable_witness :
  exists names,
    ran (_run_async_impl counter_router counter_map 0 5)
    = names ++ [counter_router (ctx_out (_run_async_impl counter_router counter_map 0 5))].
Proof.
  apply (turn_boundary_is_stable counter_router counter_map 0 5).
  vm_compute. reflexivity.
Defined.

Lemma exhausted_agent_is_silent_witness :
  Forall (fun r => ran r = [] /\ events r = [] /\ errors r = []
                   /\ exit r = ExitLoopEnd /\ step_out r = 30)
         (session counter_router counter_map 30 0 [S; S]).
Proof.
  apply (exhausted_agent_is_silent counter_router counter_map 30 0 [S; S]).
  unfold _MAX_ITERATIONS. lia.
Defined.

(** A session of the counting agent: each call runs it once. *)
Example counter_session :
  handlers_run (session counter_router counter_map 0 0 (replicate 40 id)) = 30.
Proof. vm_compute. reflexivity. Qed.

End EngineMore.

(** ** More on the routed order workflow *)

Module WorkflowMore.
Import CustomWorkflowAgent order_flow_agent Routing StatusMachine Workflow.
Local Open Scope list_scope.

(** *** The routing function, read backwards *)

Lemma route_unknown_type (st : State) :
  reads_unknown (order_type st) -> get_next_agent st = constants.PREORDER_AGENT.
Proof.
  intros H. unfold get_next_agent.
  by rewrite RoutingFacts.eqb_default_unknown, (bool_decide_eq_true_2 _ H).
Qed.

Lemma route_known_type (st : State) :
  get_next_agent st <> constants.PREORDER_AGENT ->
  ~ reads_unknown (order_type st).
Proof. intros Hne H. by apply Hne, route_unknown_type. Qed.

Lemma route_menu (st : State) :
  get_next_agent st = constants.MENU_AGENT ->
  reads_unknown (order_status st)
  \/ order_status st = Some constants.IN_PROGRESS.
Proof.
  intros H. split_route H.
  match goal with
  | E : (_ || _) = true |- _ => apply orb_true_iff in E; destruct E as [E1|E1]
  end.
  - left. rewrite RoutingFacts.eqb_default_unknown in E1.
    by apply bool_decide_eq_true in E1.
  - right. by apply default_status_Some.
Qed.

Lemma route_user_info_name (st : State) :
  get_next_agent st = constants.USER_INFO_AGENT ->
  order_status st = Some constants.CONFIRMED ->
  truthy (name_for_order st) = false.
Proof.
  intros H Hst. unfold get_next_agent in H. rewrite Hst in H.
  cbn [default from_option id] in H.
  destruct (String.eqb (default "UNKNOWN" (order_type st)) "UNKNOWN");
    [vm_compute in H; discriminate H|].
  change (String.eqb constants.CONFIRMED "UNKNOWN") with false in H.
  change (String.eqb constants.CONFIRMED constants.IN_PROGRESS) with false in H.
  change (String.eqb constants.CONFIRMED constants.FINISHED) with false in H.
  change (String.eqb constants.CONFIRMED constants.CONFIRMED) with true in H.
  change (String.eqb constants.CONFIRMED constants.GETTING_USER_INFO) with false in H.
  cbn [orb andb] in H.
  destruct (truthy (name_for_order st)); [|done].
  vm_compute in H. discriminate H.
Qed.

Lemma update_order_type pm (s : string) (st : State) :
  order_type (menu_agent.update_order pm s st).1 = order_type st.
Proof.
  unfold menu_agent.update_order. destruct (Text.is_empty s); [done|].
  destruct st as [ty status [o|] [t|] nm]; reflexivity.
Qed.

Lemma update_order_name pm (s : string) (st : State) :
  name_for_order (menu_agent.update_order pm s st).1 = name_for_order st.
Proof.
  unfold menu_agent.update_order. destruct (Text.is_empty s); [done|].
  destruct st as [ty status [o|] [t|] nm]; reflexivity.
Qed.

(** What each sub-agent run does to the five fields. *)
Lemma agent_step_effect (name : string) (st st' : State) :
  agent_step name st st' ->
  (name = constants.PREORDER_AGENT
   /\ (order_type st' = order_type st \/ order_type st' = Some "TO_GO"
       \/ order_type st' = Some "FOR_HERE")
   /\ order_status st' = order_status st
   /\ current_order st' = current_order st /\ order_total st' = order_total st
   /\ name_for_order st' = name_for_order st)
  \/ (name = constants.MENU_AGENT
      /\ order_type st' = order_type st
      /\ (order_status st' = Some constants.FINISHED
          \/ order_status st' = Some constants.IN_PROGRESS)
      /\ (menu_agent.ledger_ok menu_agent.menu_price_map st ->
          menu_agent.ledger_ok menu_agent.menu_price_map st')
      /\ name_for_order st' = name_for_order st)
  \/ (name = constants.CONFIRMATION_AGENT
      /\ order_type st' = order_type st
      /\ (order_status st' = order_status st
          \/ order_status st' = Some constants.CONFIRMED
          \/ order_status st' = Some constants.IN_PROGRESS)
      /\ current_order st' = current_order st /\ order_total st' = order_total st
      /\ name_for_order st' = name_for_order st)
  \/ (name = constants.USER_INFO_AGENT
      /\ order_type st' = order_type st
      /\ current_order st' = current_order st /\ order_total st' = order_total st
      /\ ((order_status st = Some constants.CONFIRMED
           /\ truthy (name_for_order st) = true /\ st' = st)
          \/ (order_status st = Some constants.CONFIRMED
              /\ truthy (name_for_order st) = false
              /\ st' = set_order_status constants.GETTING_USER_INFO st)
          \/ (order_status st <> Some constants.CONFIRMED
              /\ order_status st' = Some constants.IN_PROGRESS
              /\ name_for_order st' = name_for_order st)
          \/ (order_status st <> Some constants.CONFIRMED
              /\ order_status st' = order_status st))).
Proof.
  destruct 1 as [out st|out st|out st|st st' text Hb|out st st' Hb].
  - left. split; [done|]. unfold preorder_agent.AfterModelCallback. simpl.
    destruct (preorder_agent.order_type out); simpl; auto 10.
  - right; left. split; [done|].
    unfold menu_agent.AfterModelCallback. cbn [fst].
    rewrite update_order_type, update_order_status, update_order_name.
    split; [by destruct (menu_agent.order_finished out)|].
    split; [by destruct (menu_agent.order_finished out); auto|].
    split; [|by destruct (menu_agent.order_finished out)].
    intros Hok. apply LedgerFacts.update_order_ok.
    by destruct (menu_agent.order_finished out).
  - right; right; left. split; [done|].
    unfold confirmation_agent.AfterModelCallback. simpl.
    destruct (String.eqb (confirmation_agent.order_confirmed out) "unknown");
      simpl; [auto 10|].
    destruct (String.eqb (confirmation_agent.order_confirmed out) "true");
      simpl; auto 10.
  - right; right; right. split; [done|].
    revert Hb. unfold user_info_agent.BeforeModelCallback.
    destruct (order_status st) as [status|] eqn:Hstatus; [|done].
    destruct (String.eqb_spec status constants.CONFIRMED) as [->|Hne]; [|done].
    unfold user_info_agent.state_name_for_order.
    destruct (truthy (name_for_order st)) eqn:Hname; intros [= <- _];
      simpl; auto 10.
  - right; right; right. split; [done|].
    revert Hb. unfold user_info_agent.BeforeModelCallback.
    destruct (order_status st) as [status|] eqn:Hstatus; [|done].
    destruct (String.eqb_spec status constants.CONFIRMED) as [->|Hne].
    { by destruct (truthy (user_info_agent.state_name_for_order st)). }
    intros [= <-]. unfold user_info_agent.AfterModelCallback.
    destruct (user_info_agent.requires_order_update out); simpl.
    + repeat split; try done. right; right; left.
      repeat split; try done. congruence.
    + repeat split; try done. right; right; right.
      rewrite Hstatus. split; [congruence|done].
Qed.

Lemma route_preorder_inv (st : State) :
  get_next_agent st = constants.PREORDER_AGENT -> reads_unknown (order_type st).
Proof.
  intros H. destruct (decide (reads_unknown (order_type st))) as [|Hno]; [done|].
  exfalso. unfold get_next_agent in H.
  rewrite RoutingFacts.eqb_default_unknown, (bool_decide_eq_false_2 _ Hno) in H.
  repeat match type of H with
         | context [if ?b then _ else _] => destruct b
         end; vm_compute in H; discriminate H.
Qed.

Ltac wrong_route H :=
  exfalso;
  first [ apply route_preorder_inv in H; tauto
        | vm_compute in H; discriminate H ].

(** X16: once the order type is known, one run of a routed sub-agent
    changes [order_status] only along the edges of the status machine:
    unknown or IN_PROGRESS to IN_PROGRESS or FINISHED; FINISHED to
    FINISHED, CONFIRMED or IN_PROGRESS; CONFIRMED to GETTING_USER_INFO;
    GETTING_USER_INFO to itself or IN_PROGRESS. *)
Theorem status_transitions (st st' : State) :
  workflow_step st st' ->
  ~ reads_unknown (order_type st) ->
  transition (order_status st) (order_status st').
Proof.
  unfold workflow_step, transition. intros Hstep Htype.
  destruct (agent_step_effect _ _ _ Hstep)
    as [(Hn & _)|[(Hn & _ & Hs & _)|[(Hn & _ & Hs & _)|(Hn & _ & _ & _ & Hs)]]].
  - wrong_route Hn.
  - left. split; [by apply route_menu|]. tauto.
  - right; left. apply route_confirmation in Hn. rewrite Hn in *. tauto.
  - destruct Hs as [(Hc & Ht & _)|[(Hc & _ & ->)|[(Hc & Hs & _)|(Hc & Hs)]]].
    + rewrite (route_user_info_name st Hn Hc) in Ht. discriminate.
    + right; right; left. done.
    + destruct (route_user_info st Hn) as [?|Hg]; [done|].
      right; right; right. auto.
    + destruct (route_user_info st Hn) as [?|Hg]; [done|].
      right; right; right. rewrite Hs. auto.
Qed.

Lemma status_transitions_witness :
  transition (order_status s4) (order_status s5).
Proof.
  apply (status_transitions s4 s5).
  - apply (step_user_info_reply s4 s5 "Can I have a name for this order, please?").
    reflexivity.
  - vm_compute. intros [H|H]; discriminate H.
Defined.

(** X17: the order type is written once: after it is known, no run of a
    routed sub-agent changes it. *)
Theorem order_type_set_once (st st' : State) :
  workflow_step st st' ->
  ~ reads_unknown (order_type st) ->
  order_type st' = order_type st.
Proof.
  unfold workflow_step. intros Hstep Htype.
  destruct (agent_step_effect _ _ _ Hstep)
    as [(Hn & _)|[(_ & H & _)|[(_ & H & _)|(_ & H & _)]]]; [|done..].
  wrong_route Hn.
Qed.

Lemma order_type_set_once_witness : order_type s2 = order_type s1.
Proof.
  apply (order_type_set_once s1 s2).
  - apply step_menu.
  - vm_compute. intros [H|H]; discriminate H.
Defined.

(** X18: from a state whose status is GETTING_USER_INFO and whose order
    type is known, a run of the routed sub-agent leads to a state that is
    routed to the user-info agent again or to the menu agent: storing the
    customer's name never routes to the terminal sentinel directly. *)
Theorem name_capture_does_not_finish (st st' : State) :
  workflow_step st st' ->
  ~ reads_unknown (order_type st) ->
  order_status st = Some constants.GETTING_USER_INFO ->
  get_next_agent st' = constants.USER_INFO_AGENT
  \/ get_next_agent st' = constants.MENU_AGENT.
Proof.
  intros Hstep Htype Hst.
  assert (Hroute : get_next_agent st = constants.USER_INFO_AGENT).
  { unfold get_next_agent.
    rewrite RoutingFacts.eqb_default_unknown, (bool_decide_eq_false_2 _ Htype).
    by rewrite Hst. }
  assert (Htype' : order_type st' = order_type st).
  { unfold workflow_step in Hstep.
    destruct (agent_step_effect _ _ _ Hstep)
      as [(Hn & _)|[(_ & H & _)|[(_ & H & _)|(_ & H & _)]]]; [|done..].
    rewrite Hroute in Hn. vm_compute in Hn. discriminate Hn. }
  unfold workflow_step in Hstep. rewrite Hroute in Hstep.
  destruct (agent_step_effect _ _ _ Hstep)
    as [(Hn & _)|[(Hn & _)|[(Hn & _)|(_ & _ & _ & _ & Hs)]]];
    try (vm_compute in Hn; discriminate Hn).
  assert (Hs' : order_status st' = Some constants.GETTING_USER_INFO
                \/ order_status st' = Some constants.IN_PROGRESS).
  { destruct Hs as [(Hc & _)|[(Hc & _)|[(_ & Hs & _)|(_ & Hs)]]];
      try (rewrite Hst in Hc; vm_compute in Hc; discriminate Hc).
    - by right.
    - left. by rewrite Hs. }
  unfold get_next_agent.
  rewrite RoutingFacts.eqb_default_unknown, Htype', (bool_decide_eq_false_2 _ Htype).
  destruct Hs' as [-> | ->]; [by left|by right].
Qed.

Lemma name_capture_does_not_finish_witness :
  get_next_agent s6 = constants.USER_INFO_AGENT
  \/ get_next_agent s6 = constants.MENU_AGENT.
Proof.
  apply (name_capture_does_not_finish s5 s6).
  - apply (step_user_info_model _ s5 s5). reflexivity.
  - vm_compute. intros [H|H]; discriminate H.
  - reflexivity.
Defined.

(** *** Invariants of executions *)

Lemma ledger_ok_same pm (st st' : State) :
  current_order st' = current_order st -> order_total st' = order_total st ->
  menu_agent.ledger_ok pm st -> menu_agent.ledger_ok pm st'.
Proof.
  unfold menu_agent.ledger_ok, menu_agent.cart, menu_agent.total_of.
  by intros -> ->.
Qed.

Lemma step_state_ok (st st' : State) :
  workflow_step st st' -> state_ok st -> state_ok st'.
Proof.
  unfold workflow_step, state_ok.
  intros Hstep (Hty & Hstat & Hled & Hnone).
  assert (Hknown : get_next_agent st <> constants.PREORDER_AGENT ->
                   order_type st <> None).
  { intros Hne Hn. apply Hne, route_unknown_type. by left. }
  destruct (agent_step_effect _ _ _ Hstep)
    as [(Hn & Ht & Hs & Ho & Htot & Hnm)
       |[(Hn & Ht & Hs & Hl & Hnm)
        |[(Hn & Ht & Hs & Ho & Htot & Hnm)
         |(Hn & Ht & Ho & Htot & Hs)]]].
  - split; [unfold type_in_enum in *; destruct Ht as [->|[->| ->]]; tauto|].
    split; [by rewrite Hs|]. split; [by eapply ledger_ok_same|].
    intros Hnone'. rewrite Hs, Ho, Htot, Hnm. apply Hnone.
    destruct Ht as [<-|[Ht|Ht]]; [done|congruence..].
  - split; [by rewrite Ht|].
    split; [unfold status_in_enum; destruct Hs as [-> | ->]; tauto|].
    split; [auto|]. intros Hnone'. rewrite Ht in Hnone'.
    exfalso. apply Hknown; [|done]. rewrite Hn. by vm_compute.
  - split; [by rewrite Ht|].
    split; [unfold status_in_enum in *; destruct Hs as [->|[->| ->]]; tauto|].
    split; [by eapply ledger_ok_same|]. intros Hnone'. rewrite Ht in Hnone'.
    exfalso. apply Hknown; [|done]. rewrite Hn. by vm_compute.
  - split; [by rewrite Ht|].
    split.
    { unfold status_in_enum in *.
      destruct Hs as [(_ & _ & ->)|[(_ & _ & ->)|[(_ & -> & _)|(_ & ->)]]];
        simpl; tauto. }
    split; [by eapply ledger_ok_same|]. intros Hnone'. rewrite Ht in Hnone'.
    exfalso. apply Hknown; [|done]. rewrite Hn. by vm_compute.
Qed.

Lemma execution_state_ok (tr : list State) :
  execution tr -> Forall state_ok tr.
Proof.
  induction 1 as [|tr st st' _ IH Hstep].
  - constructor; [|constructor]. unfold state_ok, initial_state. simpl.
    repeat split; try done; [by left|by left].
  - apply Forall_app in IH as [Htr Hst].
    apply Forall_app. split; [done|].
    inversion Hst as [|? ? Hok _]; subst.
    constructor; [done|]. constructor; [|constructor].
    by eapply step_state_ok.
Qed.

(** X19: in every state of every execution from the empty state,
    [order_type] is missing, TO_GO or FOR_HERE and [order_status] is
    missing or one of the four status constants; as long as the order type
    is missing, nothing else has been written. *)
Theorem execution_values_in_enum (tr : list State) :
  execution tr ->
  Forall (fun st =>
            type_in_enum (order_type st) /\ status_in_enum (order_status st)
            /\ (order_type st = None ->
                order_status st = None /\ current_order st = None
                /\ order_total st = None /\ name_for_order st = None))
         tr.
Proof.
  intros Hexec. eapply Forall_impl; [by apply execution_state_ok|].
  unfold state_ok. tauto.
Qed.

Lemma execution_values_in_enum_witness :
  Forall (fun st =>
            type_in_enum (order_type st) /\ status_in_enum (order_status st)
            /\ (order_type st = None ->
                order_status st = None /\ current_order st = None
                /\ order_total st = None /\ name_for_order st = None))
         [initial_state; s1; s2; s3; s4; s5].
Proof.
  exact (execution_values_in_enum [initial_state; s1; s2; s3; s4; s5]
           order_until_name_request).
Defined.



(** X21: a state of an execution that the routing function sends to the
    terminal sentinel has status CONFIRMED and a non-empty name. *)
Theorem done_means_confirmed_and_named (tr : list State) (st : State) :
  execution tr ->
  st ∈ tr ->
  get_next_agent st = constants.DONE ->
  order_status st = Some constants.CONFIRMED
  /\ truthy (name_for_order st) = true.
Proof.
  intros Hexec Hin Hdone.
  pose proof (execution_state_ok tr Hexec) as Hall.
  rewrite Forall_forall in Hall.
  destruct (Hall st Hin) as (_ & Hstat & _).
  unfold get_next_agent in Hdone.
  destruct (String.eqb (default "UNKNOWN" (order_type st)) "UNKNOWN");
    [vm_compute in Hdone; discriminate Hdone|].
  destruct Hstat as [Hs|[Hs|[Hs|[Hs|Hs]]]]; rewrite Hs in Hdone |- *;
    try (vm_compute in Hdone; discriminate Hdone).
  split; [done|].
  destruct (truthy (name_for_order st)); [done|].
  vm_compute in Hdone. discriminate Hdone.
Qed.

Lemma named_order_execution :
  execution [initial_state; s1; s2; s3; s4; s5;
             NamedOrder.n6; NamedOrder.n7; NamedOrder.n8; NamedOrder.n9].
Proof.
  apply (exec_step [initial_state; s1; s2; s3; s4; s5; NamedOrder.n6; NamedOrder.n7]
           NamedOrder.n8 NamedOrder.n9).
  - apply (exec_step [initial_state; s1; s2; s3; s4; s5; NamedOrder.n6]
             NamedOrder.n7 NamedOrder.n8).
    + apply (exec_step [initial_state; s1; s2; s3; s4; s5]
               NamedOrder.n6 NamedOrder.n7).
      * apply (exec_step [initial_state; s1; s2; s3; s4] s5 NamedOrder.n6).
        -- exact order_until_name_request.
        -- apply (step_user_info_model _ s5 s5). reflexivity.
      * apply (step_user_info_model _ NamedOrder.n6 NamedOrder.n6). reflexivity.
    + apply step_menu.
  - apply step_confirmation.
Qed.

Lemma done_means_confirmed_and_named_witness :
  order_status NamedOrder.n9 = Some constants.CONFIRMED
  /\ truthy (name_for_order NamedOrder.n9) = true.
Proof.
  apply (done_means_confirmed_and_named
           [initial_state; s1; s2; s3; s4; s5;
            NamedOrder.n6; NamedOrder.n7; NamedOrder.n8; NamedOrder.n9]
           NamedOrder.n9 named_order_execution).
  - do 9 apply list_elem_of_further. apply list_elem_of_here.
  - vm_compute. reflexivity.
Defined.

(** *** The root agent *)




(** X23: when the user-info agent is routed on a CONFIRMED order, its
    callback answers by itself: it asks for the name, sets the status to
    GETTING_USER_INFO and the model is not called.  The other canned
    answer of that callback needs a name, and then the routing function
    does not name this agent. *)
Theorem user_info_asks_for_name {Env : Type} (m : Models Env) (ctx : @Ctx Env) :
  get_next_agent ctx.1 = constants.USER_INFO_AGENT ->
  order_status ctx.1 = Some constants.CONFIRMED ->
  run_user_info m ctx
  = Some (["Can I have a name for this order, please?"],
          (set_order_status constants.GETTING_USER_INFO ctx.1, ctx.2)).
Proof.
  intros Hroute Hst. unfold run_user_info, user_info_agent.BeforeModelCallback.
  rewrite Hst.
  change (String.eqb constants.CONFIRMED constants.CONFIRMED) with true.
  cbn iota. unfold user_info_agent.state_name_for_order.
  by rewrite (route_user_info_name ctx.1 Hroute Hst).
Qed.

Lemma user_info_asks_for_name_witness :
  run_user_info
    (mkModels (fun (env : unit) st => (preorder_agent.mkOutput EmptyString preorder_agent.UNKNOWN false, env))
              (fun env st => (menu_agent.mkOutput EmptyString EmptyString false, env))
              (fun env st => (confirmation_agent.mkOutput EmptyString "unknown", env))
              (fun env st => (user_info_agent.mkOutput EmptyString EmptyString false, env)))
    (s4, tt)
  = Some (["Can I have a name for this order, please?"], (s5, tt)).
Proof.
  exact (user_info_asks_for_name _ (s4, tt) eq_refl eq_refl).
Defined.

End WorkflowMore.

(** ** The price map of the menu agent *)

Module CatalogFacts.
Import MenuCatalog.
Local Open Scope list_scope.

Lemma build_from_lookup (to_decimal : string -> option Decimal)
    (items : list FoodItem) (pm0 pm : gmap string Z) (x : string) :
  build_from to_decimal pm0 items = Some pm ->
  pm !! x = match listed_price to_decimal x items with
            | Some d => Some d
            | None => pm0 !! x
            end.
Proof.
  revert pm0. induction items as [|item items IH]; intros pm0; simpl.
  - by intros [= <-].
  - destruct (Text.is_empty (price item)) eqn:Hprice.
    + intros Hbuild. rewrite (IH _ Hbuild).
      destruct (listed_price to_decimal x items); [done|].
      by rewrite andb_false_r.
    + destruct (to_decimal (strip_dollar (price item))) as [d|] eqn:Hd; [|done].
      intros Hbuild. rewrite (IH _ Hbuild).
      destruct (listed_price to_decimal x items); [done|].
      rewrite andb_true_r.
      destruct (String.eqb_spec (name item) x) as [->|Hne].
      * by rewrite lookup_insert_eq.
      * by rewrite lookup_insert_ne.
Qed.

(** X24: when [MenuAgent.__init__] builds the price map without an
    exception, the map gives each name the price of the last menu entry
    with that name and a non-empty price string, read after the dollar
    signs at its ends are stripped; names without such an entry are not
    in the map. *)
Theorem build_price_map_lookup (to_decimal : string -> option Decimal)
    (items : list FoodItem) (pm : gmap string Z) :
  build_price_map to_decimal items = Some pm ->
  forall x : string, pm !! x = listed_price to_decimal x items.
Proof.
  intros Hbuild x. rewrite (build_from_lookup to_decimal items ∅ pm x Hbuild).
  destruct (listed_price to_decimal x items); [done|]. apply lookup_empty.
Qed.

(** The menu of [menu_agent.py] gives the price map the ledger uses. *)
Example menu_price_map_built :
  build_price_map two_decimals menu_items = Some menu_agent.menu_price_map.
Proof. vm_compute. reflexivity. Qed.

Lemma build_price_map_lookup_witness :
  menu_agent.menu_price_map !! "Onion Rings"
  = listed_price two_decimals "Onion Rings" menu_items.
Proof.
  exact (build_price_map_lookup two_decimals menu_items menu_agent.menu_price_map
           menu_price_map_built "Onion Rings").
Defined.

(** X25: building the price map fails exactly when some menu entry has a
    non-empty price string that [Decimal] rejects after the dollar signs
    are stripped; an entry with an empty price string is skipped, not an
    error. *)
Theorem build_price_map_fails (to_decimal : string -> option Decimal)
    (items : list FoodItem) :
  build_price_map to_decimal items = None <->
  Exists (fun item => Text.is_empty (price item) = false
                      /\ to_decimal (strip_dollar (price item)) = None) items.
Proof.
  unfold build_price_map. generalize (∅ : gmap string Decimal).
  induction items as [|item items IH]; intros pm0; simpl.
  - split; [done|]. by intros ?%Exists_nil.
  - rewrite Exists_cons.
    destruct (Text.is_empty (price item)) eqn:Hprice.
    + rewrite IH. split; [by right|]. by intros [[? _]|?].
    + destruct (to_decimal (strip_dollar (price item))) as [d|] eqn:Hd.
      * rewrite IH. split; [by right|]. by intros [[_ ?]|?].
      * split; [by left|done].
Qed.

End CatalogFacts.

(** ** How a call ends *)

Module EngineExits.
Import CustomWorkflowAgent.
Local Open Scope list_scope.

(** X26: a call never leaves through the branch for the terminal
    sentinel.  It ends because the cap is reached, because the routing is
    stable, because a sub-agent raised, or on an unknown agent name; an
    error is logged in the last case only, and it names what the routing
    function answers on the final context, a name the agent map does not
    hold. *)
Theorem exits_of_a_call {Ctx Event : Type} (router : Ctx -> string)
    (agent_map : gmap string (Agent Ctx Event)) (step : nat) (ctx : Ctx) :
  exit (_run_async_impl router agent_map step ctx) <> ExitDone
  /\ ((exit (_run_async_impl router agent_map step ctx) = ExitUnknownAgent
       /\ agent_map !! router (ctx_out (_run_async_impl router agent_map step ctx))
          = None
       /\ errors (_run_async_impl router agent_map step ctx)
          = ["ERROR: Unknown agent name: "
             +:+ router (ctx_out (_run_async_impl router agent_map step ctx))])
      \/ ((exit (_run_async_impl router agent_map step ctx) = ExitLoopEnd
           \/ exit (_run_async_impl router agent_map step ctx) = ExitNextUserInput
           \/ exit (_run_async_impl router agent_map step ctx) = ExitRaised)
          /\ errors (_run_async_impl router agent_map step ctx) = [])).
Proof.
  unfold _run_async_impl.
  refine (Engine.loop_ind router agent_map
            (fun _ name ctx r =>
               name = router ctx ->
               exit r <> ExitDone
               /\ ((exit r = ExitUnknownAgent
                    /\ agent_map !! router (ctx_out r) = None
                    /\ errors r
                       = ["ERROR: Unknown agent name: " +:+ router (ctx_out r)])
                   \/ ((exit r = ExitLoopEnd \/ exit r = ExitNextUserInput
                        \/ exit r = ExitRaised)
                       /\ errors r = [])))
            _ _ _ _ _ (S _MAX_ITERATIONS) step _ ctx _ eq_refl);
    simpl.
  - intros. split; [done|]. right. auto.
  - intros _ name ctx0 _ Hname ->. split; [done|]. left. auto.
  - intros. split; [done|]. right. auto.
  - intros. split; [done|]. right. auto.
  - intros _ name ctx0 a evs ctx' r _ _ _ _ IH _. by apply IH.
  - unfold _MAX_ITERATIONS. lia.
Qed.

End EngineExits.

(** ** Calls of the root agent and executions *)

Module WorkflowRuns.
Import CustomWorkflowAgent order_flow_agent Workflow.
Local Open Scope list_scope.

Lemma execution_extend (tr : list State) (st st' : State) :
  rtc workflow_step st st' ->
  execution (tr ++ [st]) ->
  exists mid, execution (tr ++ st :: mid) /\ last (st :: mid) = Some st'.
Proof.
  intros Hrtc. revert tr.
  induction Hrtc as [st|st y st' Hstep _ IH]; intros tr Hexec.
  - exists []. done.
  - pose proof (exec_step tr st y Hexec Hstep) as Hexec'.
    change (tr ++ [st; y]) with (tr ++ [st] ++ [y]) in Hexec'.
    rewrite app_assoc in Hexec'.
    destruct (IH _ Hexec') as (mid & Hmid & Hlast).
    exists (y :: mid). split.
    + by rewrite <- app_assoc in Hmid.
    + done.
Qed.

(** X27: whatever the models answer, a call of the root agent continues
    an execution of the routed workflow: the states it passes through
    extend the history to another execution, which ends in the session
    state the call leaves. *)
Theorem root_run_extends_execution {Env : Type} (m : Models Env)
    (step : nat) (ctx : @Ctx Env) (tr : list State) :
  execution (tr ++ [ctx.1]) ->
  exists mid,
    execution (tr ++ ctx.1 :: mid)
    /\ last (ctx.1 :: mid) = Some (ctx_out (root_run m step ctx)).1.
Proof.
  intros Hexec. apply execution_extend; [|done]. apply root_run_steps.
Qed.

Lemma root_run_extends_execution_witness :
  exists mid,
    execution ([] ++ initial_state :: mid)
    /\ last (initial_state :: mid)
       = Some (ctx_out
                 (root_run
                    (mkModels
                       (fun (env : unit) st =>
                          (preorder_agent.mkOutput EmptyString preorder_agent.TO_GO true, env))
                       (fun env st =>
                          (menu_agent.mkOutput "One King Burger!" "add [King Burger]" false, env))
                       (fun env st =>
                          (confirmation_agent.mkOutput EmptyString "unknown", env))
                       (fun env st =>
                          (user_info_agent.mkOutput EmptyString EmptyString false, env)))
                    0 (initial_state, tt))).1.
Proof.
  apply (root_run_extends_execution _ 0 (initial_state, tt) []).
  apply exec_start.
Defined.

(** The run of that witness: the type is set and the burger added in one
    call, which then waits for the user. *)
Example first_call :
  let r := root_run
             (mkModels
                (fun (env : unit) st =>
                   (preorder_agent.mkOutput EmptyString preorder_agent.TO_GO true, env))
                (fun env st =>
                   (menu_agent.mkOutput "One King Burger!" "add [King Burger]" false, env))
                (fun env st =>
                   (confirmation_agent.mkOutput EmptyString "unknown", env))
                (fun env st =>
                   (user_info_agent.mkOutput EmptyString EmptyString false, env)))
             0 (initial_state, tt) in
  ran r = ["preorder_agent"; "menu_agent"]
  /\ exit r = ExitNextUserInput
  /\ ctx_out r = (Scenarios.s2, tt).
Proof. vm_compute. repeat split; reflexivity. Qed.

End WorkflowRuns.
